(** * Community server: store decorators, patch protocol, authorization pipeline

A shallow embedding of
  - [src/storage/PassthroughStore.ts]
  - [src/storage/patch/RepresentationPatchHandler.ts]
  - [src/server/AuthorizingHttpHandler.ts]
  - [src/init/ContainerInitializer.ts]
Every asynchronous method becomes a computation that threads the state of
the outside world (the store chain, the file system, the key-value
storage) and may fail with a thrown error.  The handlers additionally
record, in order, every call they make to a collaborator, so that
"is never invoked" and "is invoked exactly once" are statements about the
recorded calls. *)

From Stdlib Require Import String List ZArith Bool Lia.
From stdpp Require Import base strings gmap.
Import ListNotations.
Local Open Scope string_scope.
Local Open Scope list_scope.

Set Implicit Arguments.

(* ===================================================================== *)
(** * Data model *)
(* ===================================================================== *)

(** [ResourceIdentifier]: [{ path: string }]. *)
Record ResourceIdentifier := mkId { path : string }.

(** An RDF term, of which the code only reads [.value]. *)
Record Term := mkTerm { value : string }.

(** A quad as the patch algebra lists it. *)
Record Quad := mkQuad {
  subject : Term;
  predicate : Term;
  object : Term
}.

(** Modelled from the spec: [RepresentationMetadata] (its class is not among
    the sources) is a multi-valued mapping from predicate to values, the
    values of one predicate kept in insertion order. *)
Record RepresentationMetadata := mkMetadata {
  md_identifier : ResourceIdentifier;
  md_entries : list (string * Term)
}.

(** [new RepresentationMetadata(id)] *)
Definition newMetadata (id : ResourceIdentifier) : RepresentationMetadata :=
  {| md_identifier := id; md_entries := [] |}.

(** [metadata.getAll(predicate)] *)
Definition getAll (metadata : RepresentationMetadata) (p : string) : list Term :=
  map snd (List.filter (fun e => String.eqb (fst e) p) (md_entries metadata)).

Record Representation := mkRepresentation {
  metadata : RepresentationMetadata;
  data : string
}.

(** [{ enable: 0 | 1 }], the value stored under [preferences.secure]. *)
Record SecureFlag := mkSecure { enable : Z }.

(** [RepresentationPreferences].  The content-negotiation entries are read by
    none of the code below and are kept as an uninterpreted list. *)
Record RepresentationPreferences := mkPreferences {
  negotiation : list (string * string);
  secure : option SecureFlag
}.

(** The object literal [{}]. *)
Definition emptyPreferences : RepresentationPreferences :=
  {| negotiation := []; secure := None |}.

(** The object literal [{ secure: { 'enable': n } }]. *)
Definition securePreferences (n : Z) : RepresentationPreferences :=
  {| negotiation := []; secure := Some {| enable := n |} |}.

(** Modelled from the spec: [Conditions] (its interface is not among the
    sources) is a predicate over the current metadata of a resource, absent
    when the resource does not exist. *)
Record Conditions := mkConditions {
  matchesMetadata : option RepresentationMetadata -> bool
}.

(** One entry of [algebra.updates]. *)
Record UpdateItem := mkUpdate {
  u_delete : option (list Quad);
  u_insert : option (list Quad)
}.

(** The fields of [SparqlUpdatePatch.algebra] that the code probes:
    [updates], [delete], [insert]; each may be undefined. *)
Record Algebra := mkAlgebra {
  a_updates : option (list UpdateItem);
  a_delete : option (list Quad);
  a_insert : option (list Quad)
}.

(** [Patch] is a [Representation]; a SPARQL update patch carries in addition
    its [algebra] (and its text, [sparql]).  Both are undefined on any other
    patch or body. *)
Record Patch := mkPatch {
  patch_representation : Representation;
  sparql : option string;
  algebra : option Algebra
}.

(** [CredentialSet]; the handler reads [credentials.agent?.webId]. *)
Record CredentialSet := mkCredentials {
  agent : option string;
  client : option string;
  issuer : option string
}.

Inductive AccessMode := Read | Append | Create | Write | Delete | Control.

(** A [Set<AccessMode>], iterated in insertion order. *)
Definition ModeSet := list AccessMode.

(** Modelled from the spec: a [PermissionSet] maps a mode to granted or
    denied. *)
Definition PermissionSet := list (AccessMode * bool).

(** [{ 'readOnly': [], 'hide': [] }]: created empty by the authorizing
    handler, handed to the permission reader, which may fill it. *)
Record AttributePermissions := mkAttributePermissions {
  readOnly : list string;
  hide : list string
}.

(** [Operation], with the field [attributePermissions] the handler adds. *)
Record Operation := mkOperation {
  method : string;
  target : ResourceIdentifier;
  preferences : RepresentationPreferences;
  conditions : option Conditions;
  permissionSet : option PermissionSet;
  attributePermissions : option AttributePermissions;
  body : option Patch
}.

(** The request is opaque to the handlers: only the credentials extractor
    reads it. *)
Record HttpRequest := mkRequest { headers : list (string * string) }.

Record OperationHttpHandlerInput := mkInput {
  request : HttpRequest;
  operation : Operation
}.

Record ResponseDescription := mkResponse {
  statusCode : Z;
  response_data : option string
}.

(** ** Errors *)

(** The error kinds of the boundary; [OtherError] stands for any other thrown
    value (a [TypeError], a file-system error, ...). *)
Inductive ErrorKind :=
| NotFound | PreconditionFailed | ValidationError
| Unauthorized | Forbidden | InternalError | OtherError.

Record HttpError := mkError { kind : ErrorKind; message : string }.

(** [NotFoundHttpError.isInstance(error)] *)
Definition isNotFound (error : HttpError) : bool :=
  match kind error with NotFound => true | _ => false end.

(** The outcome of an awaited call: a value or a thrown error. *)
Inductive Result (A : Type) :=
| Ok (a : A)
| Err (e : HttpError).
Arguments Ok {A} a.
Arguments Err {A} e.

(** A method of a collaborator, over the state [W] of the outside world. *)
Definition Op (W A : Type) := W -> Result A * W.

(* ===================================================================== *)
(** * The ResourceStore interface *)
(* ===================================================================== *)

Record ResourceStore (W : Type) := mkStore {
  hasResource : ResourceIdentifier -> Op W bool;
  getRepresentation :
    ResourceIdentifier -> RepresentationPreferences -> option Conditions ->
    Op W Representation;
  addResource :
    ResourceIdentifier -> Representation -> option Conditions ->
    Op W ResourceIdentifier;
  deleteResource :
    ResourceIdentifier -> option Conditions -> Op W (list ResourceIdentifier);
  modifyResource :
    ResourceIdentifier -> Patch -> option Conditions ->
    option RepresentationPreferences -> Op W (list ResourceIdentifier);
  setRepresentation :
    ResourceIdentifier -> Representation -> option Conditions ->
    option RepresentationPreferences -> Op W (list ResourceIdentifier)
}.

(** A call on a store, with its arguments. *)
Inductive StoreCall :=
| HasResource (identifier : ResourceIdentifier)
| GetRepresentation (identifier : ResourceIdentifier)
    (prefs : RepresentationPreferences) (conds : option Conditions)
| AddResource (container : ResourceIdentifier)
    (representation : Representation) (conds : option Conditions)
| DeleteResource (identifier : ResourceIdentifier) (conds : option Conditions)
| ModifyResource (identifier : ResourceIdentifier) (p : Patch)
    (conds : option Conditions) (prefs : option RepresentationPreferences)
| SetRepresentation (identifier : ResourceIdentifier)
    (representation : Representation) (conds : option Conditions)
    (prefs : option RepresentationPreferences).

(** ** PassthroughStore *)

Module PassthroughStore.
Section Passthrough.
Context {W : Type}.
Variable source : ResourceStore W.

Definition hasResource (identifier : ResourceIdentifier) : Op W bool :=
  hasResource source identifier.

Definition getRepresentation (identifier : ResourceIdentifier)
    (prefs : RepresentationPreferences) (conds : option Conditions)
    : Op W Representation :=
  getRepresentation source identifier prefs conds.

Definition addResource (container : ResourceIdentifier)
    (representation : Representation) (conds : option Conditions)
    : Op W ResourceIdentifier :=
  addResource source container representation conds.

Definition deleteResource (identifier : ResourceIdentifier)
    (conds : option Conditions) : Op W (list ResourceIdentifier) :=
  deleteResource source identifier conds.

Definition modifyResource (identifier : ResourceIdentifier) (p : Patch)
    (conds : option Conditions) (prefs : option RepresentationPreferences)
    : Op W (list ResourceIdentifier) :=
  modifyResource source identifier p conds prefs.

Definition setRepresentation (identifier : ResourceIdentifier)
    (representation : Representation) (conds : option Conditions)
    (prefs : option RepresentationPreferences)
    : Op W (list ResourceIdentifier) :=
  setRepresentation source identifier representation conds prefs.

(** The class, as a [ResourceStore]. *)
Definition new : ResourceStore W :=
  mkStore hasResource getRepresentation addResource deleteResource
    modifyResource setRepresentation.
End Passthrough.
End PassthroughStore.

(** ** A recording store

The test double that observes the calls a store receives: it wraps a
store [S], appends every call to a log kept next to the state of [S], and
answers as [S] does. *)
Section Recording.
Context {W : Type}.
Variable S : ResourceStore W.

Definition recorded {A} (c : StoreCall) (op : Op W A)
    : Op (W * list StoreCall) A :=
  fun st =>
    let '(r, w') := op (fst st) in
    (r, (w', snd st ++ [c])).

Definition RecordingStore : ResourceStore (W * list StoreCall) :=
  {| hasResource := fun i => recorded (HasResource i) (hasResource S i);
     getRepresentation := fun i p c =>
       recorded (GetRepresentation i p c) (getRepresentation S i p c);
     addResource := fun i r c =>
       recorded (AddResource i r c) (addResource S i r c);
     deleteResource := fun i c =>
       recorded (DeleteResource i c) (deleteResource S i c);
     modifyResource := fun i p c q =>
       recorded (ModifyResource i p c q) (modifyResource S i p c q);
     setRepresentation := fun i r c q =>
       recorded (SetRepresentation i r c q) (setRepresentation S i r c q) |}.
End Recording.

(* ===================================================================== *)
(** * Collaborators of the handlers *)
(* ===================================================================== *)

(** Input of [RepresentationPatcher.handleSafe]. *)
Record RepresentationPatcherInput := mkPatcherInput {
  pi_patch : Patch;
  pi_identifier : ResourceIdentifier;
  pi_representation : option Representation
}.

(** Input of [PermissionReader.handleSafe], as the authorizing handler builds
    it. *)
Record PermissionReaderInput := mkReaderInput {
  ri_credentials : CredentialSet;
  ri_identifier : ResourceIdentifier;
  ri_modes : ModeSet;
  ri_attributePermissions : AttributePermissions
}.

(** Input of [Authorizer.handleSafe]. *)
Record AuthorizerInput := mkAuthorizerInput {
  ai_credentials : CredentialSet;
  ai_identifier : ResourceIdentifier;
  ai_modes : ModeSet;
  ai_permissionSet : PermissionSet
}.

(** The [Guarded<Readable>] that [getData] returns and [writeDocument]
    takes: a stream, here the value handed from the one call to the other.
    What a consumer reads from it, and so what [writeDocument] ends up
    storing, is decided by the accessor when the stream is consumed; the
    handlers only pass it on. *)
Definition Readable := string.

(** What the code reaches without being handed it: the [FileDataAccessor]
    and the [SingleRootIdentifierStrategy] it constructs on the spot for
    ['http://localhost:3001'] and ['./.data'], and [fs.promises].  None of
    these classes is among the sources; their methods are parameters. *)
Record Platform (W : Type) := mkPlatform {
  accessor_getData :
    ResourceIdentifier -> option RepresentationPreferences -> Op W Readable;
  accessor_writeDocument :
    ResourceIdentifier -> Readable -> RepresentationMetadata ->
    option RepresentationPreferences -> Op W unit;
  accessor_getMetadata : ResourceIdentifier -> Op W RepresentationMetadata;
  isRootContainer : ResourceIdentifier -> bool;
  getParentContainer : ResourceIdentifier -> Result ResourceIdentifier;
  fs_readdir : string -> Op W (list string);
  fs_mkdir : string -> Op W unit;
  fs_copyFile : string -> string -> Op W unit
}.

(** ** Recorded calls *)

Inductive LogLevel := Verbose | Debug | Info | Warn.

(** The messages the handlers log, with the values interpolated in them. *)
Inductive LogMessage :=
| ExtractedCredentials (credentials : CredentialSet)
| RequiredModes (modes : ModeSet)
| AvailablePermissions (permissions : PermissionSet)
| AuthorizationFailed (msg : string)
| AuthorizationSucceeded
| PatchingNewResource (p : string)
| InitializingContainer (p : string)
| FailedToCreateResource (p : string) (msg : string)
| InitializedContainer (p : string) (count : nat).

Inductive Event :=
| EvStore (c : StoreCall)
| EvPatcher (i : RepresentationPatcherInput)
| EvGetData (id : ResourceIdentifier) (prefs : option RepresentationPreferences)
| EvWriteDocument (id : ResourceIdentifier) (d : string)
    (md : RepresentationMetadata) (prefs : option RepresentationPreferences)
| EvGetMetadata (id : ResourceIdentifier)
| EvCredentialsExtractor (r : HttpRequest)
| EvModesExtractor (o : Operation)
| EvPermissionReader (i : PermissionReaderInput)
| EvAuthorizer (i : AuthorizerInput)
| EvOperationHandler (i : OperationHttpHandlerInput)
| EvReaddir (dir : string)
| EvMkdir (dir : string)
| EvCopyFile (src dst : string)
| EvStorageSet (key : string) (v : bool)
| EvLogger (level : LogLevel) (msg : LogMessage)
| EvLoggerFile (webId : option string) (sparqlText : option string)
| EvConsoleLog (err : HttpError).

(* ===================================================================== *)
(** * The monad of the handlers *)
(* ===================================================================== *)

(** An [async] body: from the state of the world to an outcome, the new
    state, and the calls made on the way, oldest first. *)
Definition M (W A : Type) := W -> Result A * W * list Event.

Section Monad.
Context {W : Type}.

Definition ret {A} (a : A) : M W A := fun w => (Ok a, w, []).

Definition throw {A} (e : HttpError) : M W A := fun w => (Err e, w, []).

Definition bind {A B} (m : M W A) (k : A -> M W B) : M W B :=
  fun w =>
    match m w with
    | (Ok a, w1, t1) =>
        let '(r, w2, t2) := k a w1 in (r, w2, t1 ++ t2)
    | (Err e, w1, t1) => (Err e, w1, t1)
    end.

(** [try { m } catch (error) { h error }] *)
Definition tryCatch {A} (m : M W A) (h : HttpError -> M W A) : M W A :=
  fun w =>
    match m w with
    | (Ok a, w1, t1) => (Ok a, w1, t1)
    | (Err e, w1, t1) =>
        let '(r, w2, t2) := h e w1 in (r, w2, t1 ++ t2)
    end.

(** [await collaborator.method(args)], recorded as [ev]. *)
Definition call {A} (ev : Event) (op : Op W A) : M W A :=
  fun w => let '(r, w1) := op w in (r, w1, [ev]).

(** A logging call; it neither fails nor changes the world. *)
Definition emit (ev : Event) : M W unit := fun w => (Ok tt, w, [ev]).

(** A synchronous call that may throw. *)
Definition lift {A} (r : Result A) : M W A := fun w => (r, w, []).
End Monad.

Declare Scope handler_scope.
Delimit Scope handler_scope with handler.
Notation "'let*' x ':=' m 'in' k" := (bind m (fun x => k))
  (at level 10, x pattern, m at level 100, k at level 200) : handler_scope.
Notation "m ';;' k" := (bind m (fun _ => k))
  (at level 100, k at level 200, right associativity) : handler_scope.
Local Open Scope handler_scope.

(** The outcome, final state and recorded calls of a run. *)
Definition outcome {W A} (x : Result A * W * list Event) : Result A := fst (fst x).
Definition final {W A} (x : Result A * W * list Event) : W := snd (fst x).
Definition calls {W A} (x : Result A * W * list Event) : list Event := snd x.

(** ** Projections of a list of recorded calls *)

Definition storeCalls (t : list Event) : list StoreCall :=
  flat_map (fun ev => match ev with EvStore c => [c] | _ => [] end) t.

Definition isSetRepresentation (c : StoreCall) : bool :=
  match c with SetRepresentation _ _ _ _ => true | _ => false end.

Definition patcherCalls (t : list Event) : list RepresentationPatcherInput :=
  flat_map (fun ev => match ev with EvPatcher i => [i] | _ => [] end) t.

(** Calls on the file accessor (storage that is not the ResourceStore). *)
Definition isAccessorCall (ev : Event) : bool :=
  match ev with
  | EvGetData _ _ | EvWriteDocument _ _ _ _ | EvGetMetadata _ => true
  | _ => false
  end.

Definition accessorCalls (t : list Event) : list Event :=
  List.filter isAccessorCall t.

(** The resource an accessor call names. *)
Definition accessorTargets (t : list Event) : list string :=
  flat_map (fun ev => match ev with
                      | EvGetData id _ | EvWriteDocument id _ _ _
                      | EvGetMetadata id => [path id]
                      | _ => []
                      end) t.

Definition operationHandlerCalls (t : list Event) : list OperationHttpHandlerInput :=
  flat_map (fun ev => match ev with EvOperationHandler i => [i] | _ => [] end) t.

Definition storageSets (t : list Event) : list (string * bool) :=
  flat_map (fun ev => match ev with EvStorageSet k v => [(k, v)] | _ => [] end) t.

(** The stages of the authorization pipeline, and the downstream handler. *)
Inductive Stage :=
| StageCredentials | StageModes | StagePermissions | StageAuthorize
| StageOperation.

Definition stages (t : list Event) : list Stage :=
  flat_map (fun ev => match ev with
                      | EvCredentialsExtractor _ => [StageCredentials]
                      | EvModesExtractor _ => [StageModes]
                      | EvPermissionReader _ => [StagePermissions]
                      | EvAuthorizer _ => [StageAuthorize]
                      | EvOperationHandler _ => [StageOperation]
                      | _ => []
                      end) t.

(* ===================================================================== *)
(** * RepresentationPatchHandler *)
(* ===================================================================== *)

Module RepresentationPatchHandler.

(** [PatchHandlerInput] *)
Record PatchHandlerInput (W : Type) := mkPatchHandlerInput {
  source : ResourceStore W;
  patch : Patch;
  identifier : ResourceIdentifier;
  preferences : option RepresentationPreferences
}.

Section Handler.
Context {W : Type}.
Variable env : Platform W.
(** [this.patcher] *)
Variable patcher : RepresentationPatcherInput -> Op W Representation.

(** [const predicate = 'http://zteq.com/ac/0.1/secureOff'] *)
Definition secureOff : string := "http://zteq.com/ac/0.1/secureOff".

(** [algebra.updates?.find((item) => item.delete)?.delete
     || algebra.delete || {}]: an array is truthy, also when empty. *)
Definition deleteData (a : Algebra) : list Quad :=
  let fallback := match a_delete a with Some qs => qs | None => [] end in
  match a_updates a with
  | Some us =>
      match find (fun item => match u_delete item with Some _ => true | None => false end) us with
      | Some item => match u_delete item with Some qs => qs | None => fallback end
      | None => fallback
      end
  | None => fallback
  end.

(** [algebra.updates?.find((item) => item.insert)?.insert
     || algebra.insert || {}] *)
Definition insertData (a : Algebra) : list Quad :=
  let fallback := match a_insert a with Some qs => qs | None => [] end in
  match a_updates a with
  | Some us =>
      match find (fun item => match u_insert item with Some _ => true | None => false end) us with
      | Some item => match u_insert item with Some qs => qs | None => fallback end
      | None => fallback
      end
  | None => fallback
  end.

(** [Object.values(d).filter(quad => quad.predicate.value === predicate)
      .map(quad => quad.object.value)] *)
Definition flaggedResources (d : list Quad) : list string :=
  map (fun quad => value (object quad))
      (List.filter (fun quad => String.eqb (value (predicate quad)) secureOff) d).

(** [for (const path of secureResources) { ... }] *)
Fixpoint rewriteSecure (secureResources : list string) : M W unit :=
  match secureResources with
  | [] => ret tt
  | p :: rest =>
      let id := {| path := p |} in
      let* d := call (EvGetData id (Some (securePreferences 0)))
                     (accessor_getData env id (Some (securePreferences 0))) in
      call (EvWriteDocument id d (newMetadata id) None)
           (accessor_writeDocument env id d (newMetadata id) None) ;;
      rewriteSecure rest
  end.

(** [for (const path of unsecureResources) { ... }] *)
Fixpoint rewriteUnsecure (unsecureResources : list string) : M W unit :=
  match unsecureResources with
  | [] => ret tt
  | p :: rest =>
      let id := {| path := p |} in
      let* d := call (EvGetData id None) (accessor_getData env id None) in
      call (EvWriteDocument id d (newMetadata id) (Some (securePreferences 0)))
           (accessor_writeDocument env id d (newMetadata id)
              (Some (securePreferences 0))) ;;
      rewriteUnsecure rest
  end.

(** The [try { ... } catch (err) { console.log(err) }] block between the
    patcher and the commit. *)
Definition secureBlock (p : Patch) : M W unit :=
  tryCatch
    (match algebra p with
     | Some a =>
         rewriteSecure (flaggedResources (deleteData a)) ;;
         rewriteUnsecure (flaggedResources (insertData a))
     | None => ret tt
     end)
    (fun err => emit (EvConsoleLog err)).

(** The [try { ... } catch] around the pre-read: the representation, or
    [undefined] when the store threw a [NotFoundHttpError]. *)
Definition preRead (src : ResourceStore W) (id : ResourceIdentifier)
    : M W (option Representation) :=
  tryCatch
    (let* r := call (EvStore (GetRepresentation id emptyPreferences None))
                    (getRepresentation src id emptyPreferences None) in
     ret (Some r))
    (fun error =>
       if negb (isNotFound error) then throw error
       else (emit (EvLogger Debug (PatchingNewResource (path id))) ;;
             ret None)).

Definition handle (input : PatchHandlerInput W) : M W (list ResourceIdentifier) :=
  let src := source input in
  let id := identifier input in
  let* representation := preRead src id in
  let* patched :=
    call (EvPatcher {| pi_patch := patch input; pi_identifier := id;
                       pi_representation := representation |})
         (patcher {| pi_patch := patch input; pi_identifier := id;
                     pi_representation := representation |}) in
  secureBlock (patch input) ;;
  emit (EvLogger Debug (PatchingNewResource (path id))) ;;
  call (EvStore (SetRepresentation id patched None (preferences input)))
       (setRepresentation src id patched None (preferences input)).
End Handler.
End RepresentationPatchHandler.

(* ===================================================================== *)
(** * AuthorizingHttpHandler *)
(* ===================================================================== *)

Module AuthorizingHttpHandler.

(** [AuthorizingHttpHandlerArgs].  The permission reader is handed the
    [attributePermissions] object and may fill it in place; its result here
    is the permission set together with that object as it left it. *)
Record AuthorizingHttpHandlerArgs (W : Type) := mkArgs {
  credentialsExtractor : HttpRequest -> Op W CredentialSet;
  modesExtractor : Operation -> Op W ModeSet;
  permissionReader :
    PermissionReaderInput -> Op W (PermissionSet * AttributePermissions);
  authorizer : AuthorizerInput -> Op W unit;
  operationHandler : OperationHttpHandlerInput -> Op W ResponseDescription
}.

(** [{ credentials, identifier: operation.target, modes,
      attributePermissions }], with the object created empty. *)
Definition readerInput (o : Operation) (credentials : CredentialSet)
    (modes : ModeSet) : PermissionReaderInput :=
  {| ri_credentials := credentials; ri_identifier := target o;
     ri_modes := modes;
     ri_attributePermissions := {| readOnly := []; hide := [] |} |}.

(** [{ credentials, identifier: operation.target, modes, permissionSet }] *)
Definition authorizerInput (o : Operation) (credentials : CredentialSet)
    (modes : ModeSet) (ps : PermissionSet) : AuthorizerInput :=
  {| ai_credentials := credentials; ai_identifier := target o;
     ai_modes := modes; ai_permissionSet := ps |}.

(** [operation.permissionSet = permissionSet;
     operation.attributePermissions = attributePermissions] *)
Definition attach (o : Operation) (ps : PermissionSet)
    (ap : AttributePermissions) : Operation :=
  {| method := method o; target := target o; preferences := preferences o;
     conditions := conditions o;
     permissionSet := Some ps;
     attributePermissions := Some ap;
     body := body o |}.

(** [operation.preferences.secure = flag] *)
Definition setSecure (o : Operation) (flag : SecureFlag) : Operation :=
  {| method := method o; target := target o;
     preferences := {| negotiation := negotiation (preferences o);
                       secure := Some flag |};
     conditions := conditions o;
     permissionSet := permissionSet o;
     attributePermissions := attributePermissions o;
     body := body o |}.

Section Handler.
Context {W : Type}.
Variable env : Platform W.
Variable args : AuthorizingHttpHandlerArgs W.

(** ['enable': filteredList.length ? 0 : 1] for the entries of the
    parent's metadata under [secureOff] whose value is the target's path. *)
Definition secureFlagFor (md : RepresentationMetadata) (o : Operation)
    : SecureFlag :=
  let list := getAll md "http://zteq.com/ac/0.1/secureOff" in
  let filteredList :=
    List.filter (fun item => String.eqb (value item) (path (target o))) list in
  {| enable := match filteredList with [] => 1 | _ :: _ => 0 end |}.

(** The second [try { ... } catch (err) { console.log(err) }] block; it
    yields the operation as the block leaves it. *)
Definition secureBlock (o : Operation) : M W Operation :=
  tryCatch
    (if negb (isRootContainer env (target o)) then
       let* parent := lift (getParentContainer env (target o)) in
       let* md := call (EvGetMetadata parent) (accessor_getMetadata env parent) in
       ret (setSecure o (secureFlagFor md o))
     else ret o)
    (fun err => emit (EvConsoleLog err) ;; ret o).

(** The [try { await this.authorizer.handleSafe(...); ... } catch] block;
    it yields the operation with the permissions attached. *)
Definition authorizeBlock (o : Operation) (credentials : CredentialSet)
    (modes : ModeSet) (ps : PermissionSet) (ap : AttributePermissions)
    : M W Operation :=
  tryCatch
    (call (EvAuthorizer (authorizerInput o credentials modes ps))
          (authorizer args (authorizerInput o credentials modes ps)) ;;
     ret (attach o ps ap))
    (fun error =>
       emit (EvLogger Verbose (AuthorizationFailed (message error))) ;;
       throw error).

Definition handle (input : OperationHttpHandlerInput) : M W ResponseDescription :=
  let req := request input in
  let o := operation input in
  let* credentials :=
    call (EvCredentialsExtractor req) (credentialsExtractor args req) in
  emit (EvLogger Verbose (ExtractedCredentials credentials)) ;;
  let* modes := call (EvModesExtractor o) (modesExtractor args o) in
  emit (EvLogger Verbose (RequiredModes modes)) ;;
  let* (ps, ap) :=
    call (EvPermissionReader (readerInput o credentials modes))
         (permissionReader args (readerInput o credentials modes)) in
  emit (EvLogger Verbose (AvailablePermissions ps)) ;;
  let* o1 := authorizeBlock o credentials modes ps ap in
  emit (EvLogger Verbose AuthorizationSucceeded) ;;
  let* o2 := secureBlock o1 in
  emit (EvLoggerFile (agent credentials)
          (match body o2 with Some b => sparql b | None => None end)) ;;
  call (EvOperationHandler {| request := req; operation := o2 |})
       (operationHandler args {| request := req; operation := o2 |}).
End Handler.
End AuthorizingHttpHandler.

(* ===================================================================== *)
(** * ContainerInitializer *)
(* ===================================================================== *)

Module ContainerInitializer.

(** One element of the generator's sequence. *)
Record Resource := mkResource {
  identifier : ResourceIdentifier;
  representation : Representation
}.

(** The [AsyncIterable<Resource>] a [ResourcesGenerator] returns, as the
    [for await] loop sees it: each step yields a resource, ends the
    sequence, or throws. *)
Inductive AsyncIterable :=
| Done
| Yield (r : Resource) (rest : AsyncIterable)
| Throws (e : HttpError).

(** The template options handed to [generate]. *)
Record TemplateOptions := mkOptions {
  webId : option string;
  oidcIssuer : string
}.

(** The functions of [PathUtil] the class imports; the module is not among
    the sources. *)
Record PathUtil := mkPathUtil {
  ensureTrailingSlash : string -> string;
  joinUrl : string -> string -> string;
  joinFilePath : string -> list string -> string;
  resolveAssetPath : option string -> string
}.

(** [ContainerInitializerArgs] *)
Record ContainerInitializerArgs (W : Type) := mkInitializerArgs {
  args_baseUrl : string;
  args_path : string;
  args_store : ResourceStore W;
  args_generator : ResourceIdentifier -> TemplateOptions -> AsyncIterable;
  args_storageKey : string;
  args_storage : string -> bool -> Op W unit;
  args_rootFilePath : option string;
  args_accountFolder : option string;
  args_webIdSuffix : option string
}.

(** The fields of the class. *)
Record ContainerInitializer (W : Type) := mkInitializer {
  baseUrl : string;
  store : ResourceStore W;
  containerId : ResourceIdentifier;
  generator : ResourceIdentifier -> TemplateOptions -> AsyncIterable;
  storageKey : string;
  storage : string -> bool -> Op W unit;
  rootFilePath : option string;
  accountFolder : string;
  webIdSuffix : option string
}.

(** A string or [undefined] used as a condition: [undefined] and the empty
    string are falsy. *)
Definition truthy (s : option string) : option string :=
  match s with
  | Some EmptyString => None
  | Some s' => Some s'
  | None => None
  end.

Section Initializer.
Context {W : Type}.
Variable util : PathUtil.
Variable env : Platform W.

Definition new (a : ContainerInitializerArgs W) : ContainerInitializer W :=
  {| baseUrl := ensureTrailingSlash util (args_baseUrl a);
     containerId :=
       {| path := ensureTrailingSlash util
                    (joinUrl util (args_baseUrl a) (args_path a)) |};
     store := args_store a;
     generator := args_generator a;
     storageKey := args_storageKey a;
     storage := args_storage a;
     rootFilePath := args_rootFilePath a;
     accountFolder := resolveAssetPath util (args_accountFolder a);
     webIdSuffix := args_webIdSuffix a |}.

Variable this : ContainerInitializer W.

(** [for await (const { identifier, representation } of resources)] with
    its [try]/[catch] body; [count] is the running count. *)
Fixpoint createResources (resources : AsyncIterable) (count : nat) : M W nat :=
  match resources with
  | Done => ret count
  | Throws e => throw e
  | Yield r rest =>
      let* count' :=
        tryCatch
          (call (EvStore (SetRepresentation (identifier r) (representation r)
                            None None))
                (setRepresentation (store this) (identifier r)
                   (representation r) None None) ;;
           ret (count + 1))
          (fun error =>
             emit (EvLogger Warn
                     (FailedToCreateResource (path (identifier r))
                        (message error))) ;;
             ret count) in
      createResources rest count'
  end.

(** [for (const name of files) { await fsPromises.copyFile(...) }] *)
Fixpoint copyFiles (root : string) (files : list string) : M W unit :=
  match files with
  | [] => ret tt
  | name :: rest =>
      call (EvCopyFile (joinFilePath util (accountFolder this) [name])
              (joinFilePath util root [".internal/accounts"; name]))
           (fs_copyFile env (joinFilePath util (accountFolder this) [name])
              (joinFilePath util root [".internal/accounts"; name])) ;;
      copyFiles root rest
  end.

(** The [if (this.rootFilePath) { ... }] block. *)
Definition copyAccountFolder : M W unit :=
  match truthy (rootFilePath this) with
  | Some root =>
      let* files := call (EvReaddir (accountFolder this))
                         (fs_readdir env (accountFolder this)) in
      match files with
      | [] => ret tt
      | _ :: _ =>
          call (EvMkdir (joinFilePath util root [".internal/accounts"]))
               (fs_mkdir env (joinFilePath util root [".internal/accounts"])) ;;
          copyFiles root files
      end
  | None => ret tt
  end.

(** [this.generator.generate(this.containerId,
      { webId, oidcIssuer: this.baseUrl })] *)
Definition generated : AsyncIterable :=
  let webId :=
    match truthy (webIdSuffix this) with
    | Some suffix => Some (joinUrl util (baseUrl this) suffix)
    | None => None
    end in
  generator this (containerId this)
    {| webId := webId; oidcIssuer := baseUrl this |}.

Definition handle : M W unit :=
  emit (EvLogger Info (InitializingContainer (path (containerId this)))) ;;
  let resources := generated in
  let* count := createResources resources 0 in
  emit (EvLogger Info
          (InitializedContainer (path (containerId this)) count)) ;;
  copyAccountFolder ;;
  call (EvStorageSet (storageKey this) true)
       (storage this (storageKey this) true).
End Initializer.

(** The resources a sequence yields before it ends or throws. *)
Fixpoint yielded (resources : AsyncIterable) : list Resource :=
  match resources with
  | Yield r rest => r :: yielded rest
  | _ => []
  end.

(** The error that ends the iteration, if it ends with one. *)
Fixpoint iterationError (resources : AsyncIterable) : option HttpError :=
  match resources with
  | Done => None
  | Yield _ rest => iterationError rest
  | Throws e => Some e
  end.

End ContainerInitializer.

(* ===================================================================== *)
(** * Vocabulary of the statements *)
(* ===================================================================== *)

(** A method that leaves the world as it found it. *)
Definition ReadOnly {W A} (op : Op W A) : Prop := forall w, snd (op w) = w.

(** Events put in front of the calls of a run. *)
Definition after {W A} (t : list Event) (x : Result A * W * list Event)
    : Result A * W * list Event :=
  (outcome x, final x, t ++ calls x).

Section PatchVocabulary.
Context {W : Type}.
Variable patcher : RepresentationPatcherInput -> Op W Representation.
Variable input : RepresentationPatchHandler.PatchHandlerInput W.

Let src := RepresentationPatchHandler.source input.
Let id := RepresentationPatchHandler.identifier input.

(** Step 1 of the protocol hands [representation] to step 2 and leaves the
    world [w1]: the store answered, or threw [NotFound]. *)
Inductive PreReadYields (w : W) : option Representation -> W -> Prop :=
| PreReadFound r w1 :
    getRepresentation src id emptyPreferences None w = (Ok r, w1) ->
    PreReadYields w (Some r) w1
| PreReadAbsent e w1 :
    getRepresentation src id emptyPreferences None w = (Err e, w1) ->
    isNotFound e = true ->
    PreReadYields w None w1.

(** What the handler hands to the patcher for a pre-read result. *)
Definition patcherInput (representation : option Representation)
    : RepresentationPatcherInput :=
  {| pi_patch := RepresentationPatchHandler.patch input;
     pi_identifier := id;
     pi_representation := representation |}.

(** Step 1 fails other than with [NotFound], or step 2 fails; [e] is the
    error. *)
Inductive PatchFails (w : W) (e : HttpError) : Prop :=
| PreReadFails w1 :
    getRepresentation src id emptyPreferences None w = (Err e, w1) ->
    isNotFound e = false ->
    PatchFails w e
| PatcherFails representation w1 w2 :
    PreReadYields w representation w1 ->
    patcher (patcherInput representation) w1 = (Err e, w2) ->
    PatchFails w e.
End PatchVocabulary.

(** The resources the block between patcher and commit goes through, in
    order: each flagged resource is read, then written. *)
Definition plannedTargets (p : Patch) : list string :=
  match algebra p with
  | Some a =>
      flat_map (fun x => [x; x])
        (RepresentationPatchHandler.flaggedResources
           (RepresentationPatchHandler.deleteData a) ++
         RepresentationPatchHandler.flaggedResources
           (RepresentationPatchHandler.insertData a))
  | None => []
  end.

(** The resources the block between patcher and commit has to rewrite, in
    order, each with the preferences of its read and of its write: those
    flagged by the deletions are read with [secure.enable = 0] and written
    without preferences, those flagged by the insertions the other way
    round. *)
Definition rewritePlan (p : Patch)
    : list (string * option RepresentationPreferences *
            option RepresentationPreferences) :=
  match algebra p with
  | Some a =>
      map (fun x => (x, Some (securePreferences 0), None))
        (RepresentationPatchHandler.flaggedResources
           (RepresentationPatchHandler.deleteData a)) ++
      map (fun x => (x, None, Some (securePreferences 0)))
        (RepresentationPatchHandler.flaggedResources
           (RepresentationPatchHandler.insertData a))
  | None => []
  end.

(** Going through a plan from the world [w], one resource after the other:
    the resource is read, and what the read returned is written back with a
    fresh metadata; the first call that fails ends it.  The result is the
    calls made on the file accessor, the world left, and the error of the
    failing call if there is one. *)
Fixpoint rewrites {W} (env : Platform W)
    (plan : list (string * option RepresentationPreferences *
                  option RepresentationPreferences))
    (w : W) : list Event * W * option HttpError :=
  match plan with
  | [] => ([], w, None)
  | (p, readPrefs, writePrefs) :: rest =>
      let id := {| path := p |} in
      match accessor_getData env id readPrefs w with
      | (Err e, w1) => ([EvGetData id readPrefs], w1, Some e)
      | (Ok d, w1) =>
          match accessor_writeDocument env id d (newMetadata id) writePrefs w1 with
          | (Err e, w2) =>
              ([EvGetData id readPrefs;
                EvWriteDocument id d (newMetadata id) writePrefs], w2, Some e)
          | (Ok _, w2) =>
              let '(t, w3, failure) := rewrites env rest w2 in
              (EvGetData id readPrefs ::
               EvWriteDocument id d (newMetadata id) writePrefs :: t,
               w3, failure)
          end
      end
  end.

(** The calls of the block for such a run: those on the file accessor,
    then [console.log] of the error if a call failed. *)
Definition blockCalls {W} (x : list Event * W * option HttpError) : list Event :=
  fst (fst x) ++
  match snd x with Some e => [EvConsoleLog e] | None => [] end.

(** The outcome, world and calls of one of the handler's loops, for what
    going through its plan gave. *)
Definition loopRun {W} (x : list Event * W * option HttpError)
    : Result unit * W * list Event :=
  (match snd x with None => Ok tt | Some e => Err e end, snd (fst x), fst (fst x)).

(** The calls of the block between patcher and commit: reads and writes
    through the file accessor, and [console.log]. *)
Definition isSideChannel (ev : Event) : bool :=
  match ev with
  | EvGetData _ _ | EvWriteDocument _ _ _ _ | EvConsoleLog _ => true
  | _ => false
  end.

(** A loop over flagged resources either runs to its end, having gone
    through every resource twice (read, write), or stops at the first
    failing call. *)
Definition loopSpec {W} (l : list string) (x : Result unit * W * list Event) : Prop :=
  Forall (fun ev => isSideChannel ev = true) (calls x) /\
  match outcome x with
  | Ok _ => accessorTargets (calls x) = flat_map (fun p => [p; p]) l
  | Err _ =>
      exists rest,
        flat_map (fun p => [p; p]) l = accessorTargets (calls x) ++ rest
  end.

Section AuthorizationVocabulary.
Import AuthorizingHttpHandler.
Context {W : Type}.
Variable args : AuthorizingHttpHandlerArgs W.
Variable input : OperationHttpHandlerInput.

Let req := request input.
Let o := operation input.

(** The first three stages succeed from [w], with these results, and
    leave the world [w3]. *)
Definition Resolved (w : W) (c : CredentialSet) (m : ModeSet)
    (ps : PermissionSet) (ap : AttributePermissions) (w3 : W) : Prop :=
  exists w1 w2,
    credentialsExtractor args req w = (Ok c, w1) /\
    modesExtractor args o w1 = (Ok m, w2) /\
    permissionReader args (readerInput o c m) w2 = (Ok (ps, ap), w3).

(** The calls of the first three stages, with the logging in between. *)
Definition resolvedCalls (c : CredentialSet) (m : ModeSet)
    (ps : PermissionSet) : list Event :=
  [EvCredentialsExtractor req;
   EvLogger Verbose (ExtractedCredentials c);
   EvModesExtractor o;
   EvLogger Verbose (RequiredModes m);
   EvPermissionReader (readerInput o c m);
   EvLogger Verbose (AvailablePermissions ps)].

(** The operation passes the authorize stage. *)
Definition Authorized (w : W) (c : CredentialSet) (m : ModeSet)
    (ps : PermissionSet) (ap : AttributePermissions) (w4 : W) : Prop :=
  exists w3,
    Resolved w c m ps ap w3 /\
    authorizer args (authorizerInput o c m ps) w3 = (Ok tt, w4).

(** Stage [s] is the first to fail, with error [e], leaving the world
    [w']. *)
Inductive StageFails (w : W) : Stage -> HttpError -> W -> Prop :=
| FailsCredentials e w1 :
    credentialsExtractor args req w = (Err e, w1) ->
    StageFails w StageCredentials e w1
| FailsModes c w1 e w2 :
    credentialsExtractor args req w = (Ok c, w1) ->
    modesExtractor args o w1 = (Err e, w2) ->
    StageFails w StageModes e w2
| FailsPermissions c w1 m w2 e w3 :
    credentialsExtractor args req w = (Ok c, w1) ->
    modesExtractor args o w1 = (Ok m, w2) ->
    permissionReader args (readerInput o c m) w2 = (Err e, w3) ->
    StageFails w StagePermissions e w3
| FailsAuthorize c m ps ap w3 e w4 :
    Resolved w c m ps ap w3 ->
    authorizer args (authorizerInput o c m ps) w3 = (Err e, w4) ->
    StageFails w StageAuthorize e w4.

Variable env : Platform W.

(** The four ways through the block that follows authorization, for the
    operation [o1] it starts from: the target is the root container; the
    parent cannot be computed; the parent's metadata cannot be read; the
    flag is set from the parent's metadata. *)
Inductive SecureBlockRuns (o1 : Operation) (w : W)
    : Result Operation * W * list Event -> Prop :=
| BlockSkipsRoot :
    isRootContainer env (target o1) = true ->
    SecureBlockRuns o1 w (Ok o1, w, [])
| BlockParentThrows err :
    isRootContainer env (target o1) = false ->
    getParentContainer env (target o1) = Err err ->
    SecureBlockRuns o1 w (Ok o1, w, [EvConsoleLog err])
| BlockMetadataThrows parent err w' :
    isRootContainer env (target o1) = false ->
    getParentContainer env (target o1) = Ok parent ->
    accessor_getMetadata env parent w = (Err err, w') ->
    SecureBlockRuns o1 w
      (Ok o1, w', [EvGetMetadata parent; EvConsoleLog err])
| BlockSetsFlag parent md w' :
    isRootContainer env (target o1) = false ->
    getParentContainer env (target o1) = Ok parent ->
    accessor_getMetadata env parent w = (Ok md, w') ->
    SecureBlockRuns o1 w
      (Ok (setSecure o1 (secureFlagFor md o1)), w', [EvGetMetadata parent]).
End AuthorizationVocabulary.

(** The stages that have run when stage [s] has. *)
Definition stagesUpTo (s : Stage) : list Stage :=
  match s with
  | StageCredentials => [StageCredentials]
  | StageModes => [StageCredentials; StageModes]
  | StagePermissions => [StageCredentials; StageModes; StagePermissions]
  | StageAuthorize =>
      [StageCredentials; StageModes; StagePermissions; StageAuthorize]
  | StageOperation =>
      [StageCredentials; StageModes; StagePermissions; StageAuthorize;
       StageOperation]
  end.

(** The operation with the permission set attached and nothing else changed:
    what the specification says is forwarded. *)
Definition withPermissionSetOnly (o : Operation) (ps : PermissionSet) : Operation :=
  {| method := method o; target := target o; preferences := preferences o;
     conditions := conditions o;
     permissionSet := Some ps;
     attributePermissions := attributePermissions o;
     body := body o |}.

(** The call the initializer makes for a generated resource. *)
Definition creationCall (r : ContainerInitializer.Resource) : StoreCall :=
  SetRepresentation (ContainerInitializer.identifier r)
    (ContainerInitializer.representation r) None None.

(** The creation of the resources [rs], one after the other from the world
    [w], whatever each answers: every resource with the store's answer, and
    the world left at the end. *)
Fixpoint attempts {W} (s : ResourceStore W)
    (rs : list ContainerInitializer.Resource) (w : W)
    : list (ContainerInitializer.Resource * Result (list ResourceIdentifier)) * W :=
  match rs with
  | [] => ([], w)
  | r :: rest =>
      let '(answer, w1) :=
        setRepresentation s (ContainerInitializer.identifier r)
          (ContainerInitializer.representation r) None None w in
      let '(l, w2) := attempts s rest w1 in
      ((r, answer) :: l, w2)
  end.

(** What the initializer records for one attempt: the call, and a warning
    when it failed. *)
Definition attemptCalls
    (a : ContainerInitializer.Resource * Result (list ResourceIdentifier))
    : list Event :=
  EvStore (creationCall (fst a)) ::
  match snd a with
  | Ok _ => []
  | Err e =>
      [EvLogger Warn
         (FailedToCreateResource
            (path (ContainerInitializer.identifier (fst a))) (message e))]
  end.

(** The warning logged for a failed creation. *)
Definition isWarning (ev : Event) : bool :=
  match ev with
  | EvLogger Warn (FailedToCreateResource _ _) => true
  | _ => false
  end.

Definition succeeded {A} (r : Result A) : bool :=
  match r with Ok _ => true | Err _ => false end.

(** Calls on [fs.promises]. *)
Definition isFsCall (ev : Event) : bool :=
  match ev with
  | EvReaddir _ | EvMkdir _ | EvCopyFile _ _ => true
  | _ => false
  end.

(* ===================================================================== *)
(** * An in-memory deployment

Test doubles on which the handlers can be run: documents kept by path in
a finite map that the store and the file accessor share (as when the
store of the deployment is file-backed at the accessor's root), and the
initialization flags kept by key. *)
(* ===================================================================== *)

Module Memory.

Record World := mkWorld {
  docs : gmap string Representation;
  flags : gmap string bool
}.

Definition setDocs (w : World) (d : gmap string Representation) : World :=
  {| docs := d; flags := flags w |}.

Definition notFound (p : string) : HttpError :=
  {| kind := NotFound; message := p |}.

(** The conditions hold of the current state of the resource. *)
Definition satisfied (conds : option Conditions) (current : option Representation) : bool :=
  match conds with
  | None => true
  | Some c => matchesMetadata c (option_map metadata current)
  end.

Definition preconditionFailed : HttpError :=
  {| kind := PreconditionFailed; message := "precondition failed" |}.

Definition memStore : ResourceStore World :=
  {| hasResource := fun i w =>
       (Ok (match docs w !! path i with Some _ => true | None => false end), w);
     getRepresentation := fun i _ conds w =>
       match docs w !! path i with
       | Some r =>
           if satisfied conds (Some r) then (Ok r, w)
           else (Err preconditionFailed, w)
       | None => (Err (notFound (path i)), w)
       end;
     addResource := fun c r conds w =>
       if satisfied conds (docs w !! path c) then
         let child := String.append (path c) "child" in
         (Ok {| path := child |}, setDocs w (<[child := r]> (docs w)))
       else (Err preconditionFailed, w);
     deleteResource := fun i conds w =>
       match docs w !! path i with
       | Some r =>
           if satisfied conds (Some r)
           then (Ok [i], setDocs w (delete (path i) (docs w)))
           else (Err preconditionFailed, w)
       | None => (Err (notFound (path i)), w)
       end;
     modifyResource := fun i _ _ _ w =>
       (Err {| kind := OtherError; message := "not implemented" |}, w);
     setRepresentation := fun i r conds _ w =>
       if satisfied conds (docs w !! path i)
       then (Ok [i], setDocs w (<[path i := r]> (docs w)))
       else (Err preconditionFailed, w) |}.

(** A store that refuses every write. *)
Definition readOnlyStore : ResourceStore World :=
  {| hasResource := hasResource memStore;
     getRepresentation := getRepresentation memStore;
     addResource := fun _ _ _ w =>
       (Err {| kind := Forbidden; message := "read-only" |}, w);
     deleteResource := fun _ _ w =>
       (Err {| kind := Forbidden; message := "read-only" |}, w);
     modifyResource := fun _ _ _ _ w =>
       (Err {| kind := Forbidden; message := "read-only" |}, w);
     setRepresentation := fun _ _ _ _ w =>
       (Err {| kind := Forbidden; message := "read-only" |}, w) |}.

Definition root : string := "http://localhost:3001/".

(** The accessor reads and writes the same documents, and buffers what it
    reads: its stream is the data as it was at the read (a file-backed
    accessor need not behave so).  The identifier strategy is that of a
    flat layout, every resource but the root being a child of the root;
    the account folder is empty. *)
Definition platform : Platform World :=
  {| accessor_getData := fun i _ w =>
       match docs w !! path i with
       | Some r => (Ok (data r), w)
       | None => (Err (notFound (path i)), w)
       end;
     accessor_writeDocument := fun i d md _ w =>
       (Ok tt, setDocs w (<[path i := {| metadata := md; data := d |}]> (docs w)));
     accessor_getMetadata := fun i w =>
       match docs w !! path i with
       | Some r => (Ok (metadata r), w)
       | None => (Err (notFound (path i)), w)
       end;
     isRootContainer := fun i => String.eqb (path i) root;
     getParentContainer := fun i =>
       if String.eqb (path i) root
       then Err {| kind := InternalError; message := "root container" |}
       else Ok {| path := root |};
     fs_readdir := fun _ w => (Ok [], w);
     fs_mkdir := fun _ w => (Ok tt, w);
     fs_copyFile := fun _ _ w => (Ok tt, w) |}.

(** [KeyValueStorage.set] *)
Definition storageSet (key : string) (v : bool) : Op World unit :=
  fun w => (Ok tt, {| docs := docs w; flags := <[key := v]> (flags w) |}).

Definition pathUtil : ContainerInitializer.PathUtil :=
  {| ContainerInitializer.ensureTrailingSlash := fun s => s;
     ContainerInitializer.joinUrl := fun a b => String.append a b;
     ContainerInitializer.joinFilePath := fun a bs =>
       fold_left (fun acc b => String.append acc (String.append "/" b)) bs a;
     ContainerInitializer.resolveAssetPath := fun s =>
       match s with Some s' => s' | None => "accounts" end |}.

(** ** Sample data *)

Definition doc : ResourceIdentifier := {| path := "http://localhost:3001/doc" |}.
Definition missing : ResourceIdentifier := {| path := "http://localhost:3001/new" |}.

Definition docRepresentation : Representation :=
  {| metadata := {| md_identifier := doc;
                    md_entries := [("contentType", {| value := "text/turtle" |})] |};
     data := "<a> <b> <c>." |}.

(** The root container lists [doc] under [secureOff]. *)
Definition rootRepresentation : Representation :=
  {| metadata :=
       {| md_identifier := {| path := root |};
          md_entries :=
            [("http://zteq.com/ac/0.1/secureOff", {| value := path doc |})] |};
     data := EmptyString |}.

Definition world0 : World :=
  {| docs := <[path doc := docRepresentation]>
               (<[root := rootRepresentation]> ∅);
     flags := ∅ |}.

(** A deployment whose root container has no stored metadata: the read of
    the parent's metadata fails for every document. *)
Definition bareWorld : World :=
  {| docs := <[path doc := docRepresentation]> ∅; flags := ∅ |}.

Definition patchBody : Representation :=
  {| metadata := newMetadata doc; data := "INSERT DATA { <s> <p> <o> }" |}.

(** A patch no dialect of which the handler could know. *)
Definition opaquePatch : Patch :=
  {| patch_representation := patchBody; sparql := None; algebra := None |}.

(** A SPARQL update whose deletions name [doc] under [secureOff]. *)
Definition flaggingPatch : Patch :=
  {| patch_representation := patchBody;
     sparql := Some "DELETE DATA { <s> <http://zteq.com/ac/0.1/secureOff> <doc> }";
     algebra :=
       Some {| a_updates := None;
               a_delete :=
                 Some [ {| subject := {| value := "s" |};
                           predicate := {| value := "http://zteq.com/ac/0.1/secureOff" |};
                           object := {| value := path doc |} |} ];
               a_insert := None |} |}.

Definition patchedRepresentation : Representation :=
  {| metadata := newMetadata doc; data := "<s> <p> <o>." |}.

(** A patcher that synthesizes the same representation for every input. *)
Definition constantPatcher : RepresentationPatcherInput -> Op World Representation :=
  fun _ w => (Ok patchedRepresentation, w).

(** A patcher made to fail deterministically. *)
Definition failingPatcher : RepresentationPatcherInput -> Op World Representation :=
  fun _ w => (Err {| kind := ValidationError; message := "bad patch" |}, w).

Definition patchInput (id : ResourceIdentifier) (p : Patch)
    : RepresentationPatchHandler.PatchHandlerInput World :=
  {| RepresentationPatchHandler.source := memStore;
     RepresentationPatchHandler.patch := p;
     RepresentationPatchHandler.identifier := id;
     RepresentationPatchHandler.preferences := None |}.

(** ** A pipeline *)

Definition anonymous : CredentialSet :=
  {| agent := None; client := None; issuer := None |}.

Definition okResponse : ResponseDescription :=
  {| statusCode := 200; response_data := None |}.

(** Stages that let every request through: anonymous credentials, [Read]
    required and granted. *)
Definition permissive : AuthorizingHttpHandler.AuthorizingHttpHandlerArgs World :=
  {| AuthorizingHttpHandler.credentialsExtractor := fun _ w => (Ok anonymous, w);
     AuthorizingHttpHandler.modesExtractor := fun _ w => (Ok [Read], w);
     AuthorizingHttpHandler.permissionReader := fun i w =>
       (Ok ([(Read, true)], ri_attributePermissions i), w);
     AuthorizingHttpHandler.authorizer := fun _ w => (Ok tt, w);
     AuthorizingHttpHandler.operationHandler := fun _ w => (Ok okResponse, w) |}.

(** The same stages, with a permission reader that grants nothing and an
    authorizer that refuses. *)
Definition denying : AuthorizingHttpHandler.AuthorizingHttpHandlerArgs World :=
  {| AuthorizingHttpHandler.credentialsExtractor := fun _ w => (Ok anonymous, w);
     AuthorizingHttpHandler.modesExtractor := fun _ w => (Ok [Read], w);
     AuthorizingHttpHandler.permissionReader := fun i w =>
       (Ok ([], ri_attributePermissions i), w);
     AuthorizingHttpHandler.authorizer := fun _ w =>
       (Err {| kind := Unauthorized; message := "anonymous" |}, w);
     AuthorizingHttpHandler.operationHandler := fun _ w => (Ok okResponse, w) |}.

Definition readOperation (id : ResourceIdentifier) : Operation :=
  {| method := "GET"; target := id; preferences := emptyPreferences;
     conditions := None; permissionSet := None; attributePermissions := None;
     body := None |}.

Definition readRequest (id : ResourceIdentifier) : OperationHttpHandlerInput :=
  {| request := {| headers := [] |}; operation := readOperation id |}.

(** ** An initializer *)

Definition seed (p : string) : ContainerInitializer.Resource :=
  {| ContainerInitializer.identifier := {| path := p |};
     ContainerInitializer.representation :=
       {| metadata := newMetadata {| path := p |}; data := EmptyString |} |}.

Definition twoResources : ContainerInitializer.AsyncIterable :=
  ContainerInitializer.Yield (seed "http://localhost:3001/a")
    (ContainerInitializer.Yield (seed "http://localhost:3001/b")
       ContainerInitializer.Done).

Definition initializer (s : ResourceStore World)
    : ContainerInitializer.ContainerInitializer World :=
  ContainerInitializer.new pathUtil
    {| ContainerInitializer.args_baseUrl := root;
       ContainerInitializer.args_path := EmptyString;
       ContainerInitializer.args_store := s;
       ContainerInitializer.args_generator := fun _ _ => twoResources;
       ContainerInitializer.args_storageKey := "rootInitialized";
       ContainerInitializer.args_storage := storageSet;
       ContainerInitializer.args_rootFilePath := None;
       ContainerInitializer.args_accountFolder := None;
       ContainerInitializer.args_webIdSuffix := None |}.

End Memory.

(* ===================================================================== *)
(** * VarResolver

    The two self-contained parts of [src/init/variables/VarResolver.ts]:
    the callback handed to [yargs.check] and [resolveVariables].  The rest
    of the class is calls into the yargs library. *)
(* ===================================================================== *)

Module VarResolver.

(** The value of one entry of [yargs.Arguments]: an array, or anything
    else; elements and scalars are kept as the text [join] prints. *)
Inductive ArgValue :=
| Single (v : string)
| Multiple (vs : list string).

(** [Array.isArray(val)] *)
Definition isArray (val : ArgValue) : bool :=
  match val with Multiple _ => true | Single _ => false end.

Definition elements (val : ArgValue) : list string :=
  match val with Multiple vs => vs | Single _ => [] end.

(** [yargs.Arguments]: the positional arguments [args._] and the other
    entries, in the order [Object.entries] lists them. *)
Record Arguments := mkArguments {
  positional : list string;
  options : list (string * ArgValue)
}.

(** [Object.entries(args)]; the place of the entry ['_'] among the others
    does not matter, the loop skips it. *)
Definition entries (args : Arguments) : list (string * ArgValue) :=
  ("_", Multiple (positional args)) :: options args.

(** The double-quote character. *)
Definition quote : string := String (Ascii.ascii_of_nat 34) EmptyString.

(** [list.join('", "')] *)
Definition joinQuoted (l : list string) : string :=
  String.concat (String.concat EmptyString [quote; ", "; quote]) l.

(** [new Error(msg)] *)
Definition newError (msg : string) : HttpError :=
  {| kind := OtherError; message := msg |}.

Definition positionalMessage (l : list string) : string :=
  String.concat EmptyString
    ["Unsupported positional arguments: "; quote; joinQuoted l; quote].

Definition multipleMessage (key : string) (vs : list string) : string :=
  String.concat EmptyString
    ["Multiple values were provided for: "; quote; key; quote; ": ";
     quote; joinQuoted vs; quote].

(** [for (const [ key, val ] of Object.entries(args)) { ... }] *)
Fixpoint checkEntries (es : list (string * ArgValue)) : Result bool :=
  match es with
  | [] => Ok true
  | (key, val) :: rest =>
      if negb (String.eqb key "_") && isArray val
      then Err (newError (multipleMessage key (elements val)))
      else checkEntries rest
  end.

(** The callback of [yArgv.check] in [validateArguments]. *)
Definition check (args : Arguments) : Result bool :=
  match positional args with
  | _ :: _ => Err (newError (positionalMessage (positional args)))
  | [] => checkEntries (entries args)
  end.

Section Resolver.
Context {W V : Type}.

(** [VarComputer.handle] *)
Definition VarComputer := Arguments -> Op W V.

Definition computeMessage (name : string) (err : HttpError) : string :=
  String.concat EmptyString
    ["Error in computing value for variable "; name; ": "; message err].

(** [vars[name] = value] on the plain object [vars], as a map of its own
    properties.  The name ['__proto__'] is the one name for which the
    assignment creates no own property: it goes to the setter that
    [Object.prototype] has for it. *)
Definition assign (vars : gmap string V) (name : string) (value : V)
    : gmap string V :=
  if String.eqb name "__proto__" then vars else <[name := value]> vars.

(** The loop of [resolveVariables] over [Object.entries(this.varComputers)],
    with the own properties of [vars] as filled so far.  Next to the outcome and the world it
    gives the names of the computers it has called, oldest first. *)
Fixpoint resolveEntries (computers : list (string * VarComputer))
    (args : Arguments) (vars : gmap string V) (w : W)
    : Result (gmap string V) * W * list string :=
  match computers with
  | [] => (Ok vars, w, [])
  | (name, computer) :: rest =>
      match computer args w with
      | (Ok v, w1) =>
          let '(r, w2, t) := resolveEntries rest args (assign vars name v) w1 in
          (r, w2, name :: t)
      | (Err err, w1) => (Err (newError (computeMessage name err)), w1, [name])
      end
  end.

(** [resolveVariables(args)], for [this.varComputers] as [Object.entries]
    lists it. *)
Definition resolveVariables (varComputers : list (string * VarComputer))
    (args : Arguments) (w : W) : Result (gmap string V) * W * list string :=
  resolveEntries varComputers args ∅ w.
End Resolver.

End VarResolver.

(* ===================================================================== *)
(** * Vocabulary of the further properties *)
(* ===================================================================== *)

(** The call that copies the account file [name] under [root]. *)
Definition copyCall {W} (util : ContainerInitializer.PathUtil)
    (this : ContainerInitializer.ContainerInitializer W)
    (root name : string) : Event :=
  EvCopyFile
    (ContainerInitializer.joinFilePath util
       (ContainerInitializer.accountFolder this) [name])
    (ContainerInitializer.joinFilePath util root [".internal/accounts"; name]).

(** Calls on the file accessor that come in pairs: a read of a resource,
    directly followed by a write of the same resource with a fresh, empty
    metadata; only the last read may be left without its write. *)
Inductive ReadThenWrite : list Event -> Prop :=
| NoAccess : ReadThenWrite []
| LoneRead id readPrefs : ReadThenWrite [EvGetData id readPrefs]
| ReadWrite id readPrefs d writePrefs rest :
    ReadThenWrite rest ->
    ReadThenWrite
      (EvGetData id readPrefs ::
       EvWriteDocument id d (newMetadata id) writePrefs :: rest).

(** The copies of the files [names] of the account folder under [root],
    one after the other from the world [w], whatever each answers: the
    answers, and the world left at the end. *)
Fixpoint copyAttempts {W} (util : ContainerInitializer.PathUtil)
    (env : Platform W) (this : ContainerInitializer.ContainerInitializer W)
    (root : string) (names : list string) (w : W)
    : list (Result unit) * W :=
  match names with
  | [] => ([], w)
  | name :: rest =>
      let '(answer, w1) :=
        fs_copyFile env
          (ContainerInitializer.joinFilePath util
             (ContainerInitializer.accountFolder this) [name])
          (ContainerInitializer.joinFilePath util root
             [".internal/accounts"; name]) w in
      let '(answers, w2) := copyAttempts util env this root rest w1 in
      (answer :: answers, w2)
  end.

(** ** Further scenarios on the in-memory deployment *)

Module Scenarios.
Import Memory.

(** A SPARQL update whose deletions name a resource that is not stored and
    whose insertions name [doc], both under [secureOff]. *)
Definition danglingPatch : Patch :=
  {| patch_representation := patchBody;
     sparql := None;
     algebra :=
       Some {| a_updates := None;
               a_delete :=
                 Some [ {| subject := {| value := "s" |};
                           predicate := {| value := "http://zteq.com/ac/0.1/secureOff" |};
                           object := {| value := path missing |} |} ];
               a_insert :=
                 Some [ {| subject := {| value := "s" |};
                           predicate := {| value := "http://zteq.com/ac/0.1/secureOff" |};
                           object := {| value := path doc |} |} ] |} |}.

(** A SPARQL update that deletes and inserts the same flagged quad. *)
Definition twiceFlaggingPatch : Patch :=
  {| patch_representation := patchBody;
     sparql := None;
     algebra :=
       Some {| a_updates := None;
               a_delete :=
                 Some [ {| subject := {| value := "s" |};
                           predicate := {| value := "http://zteq.com/ac/0.1/secureOff" |};
                           object := {| value := path doc |} |} ];
               a_insert :=
                 Some [ {| subject := {| value := "s" |};
                           predicate := {| value := "http://zteq.com/ac/0.1/secureOff" |};
                           object := {| value := path doc |} |} ] |} |}.

(** A SPARQL update on ordinary triples. *)
Definition plainTriple : Quad :=
  {| subject := {| value := "s" |}; predicate := {| value := "p" |};
     object := {| value := path doc |} |}.

Definition ordinaryPatch : Patch :=
  {| patch_representation := patchBody;
     sparql := None;
     algebra :=
       Some {| a_updates := None;
               a_delete := Some [plainTriple];
               a_insert := Some [plainTriple] |} |}.

(** A composite update: the first item only inserts, the second deletes
    nothing (an empty array), the third deletes a flagged quad. *)
Definition flaggedQuad : Quad :=
  {| subject := {| value := "s" |};
     predicate := {| value := "http://zteq.com/ac/0.1/secureOff" |};
     object := {| value := path doc |} |}.

Definition compositeAlgebra : Algebra :=
  {| a_updates :=
       Some [ {| u_delete := None; u_insert := Some [plainTriple] |};
              {| u_delete := Some []; u_insert := None |};
              {| u_delete := Some [flaggedQuad]; u_insert := Some [flaggedQuad] |} ];
     a_delete := Some [flaggedQuad];
     a_insert := None |}.

(** A read of the root container. *)
Definition rootRequest : OperationHttpHandlerInput :=
  readRequest {| path := root |}.

(** A read of [doc] that asks for [secure.enable = 1] itself. *)
Definition insistingRequest : OperationHttpHandlerInput :=
  {| request := {| headers := [] |};
     operation :=
       {| method := "GET"; target := doc;
          preferences := {| negotiation := [("type", "text/turtle")];
                            secure := Some {| enable := 1 |} |};
          conditions := None; permissionSet := None;
          attributePermissions := None; body := None |} |}.

(** An account folder with two files; the target directory already
    exists when [exists_] is set. *)
Definition accountPlatform (exists_ : bool) : Platform World :=
  {| accessor_getData := accessor_getData platform;
     accessor_writeDocument := accessor_writeDocument platform;
     accessor_getMetadata := accessor_getMetadata platform;
     isRootContainer := isRootContainer platform;
     getParentContainer := getParentContainer platform;
     fs_readdir := fun _ w => (Ok ["alice.json"; "bob.json"], w);
     fs_mkdir := fun _ w =>
       if exists_
       then (Err {| kind := OtherError; message := "EEXIST" |}, w)
       else (Ok tt, w);
     fs_copyFile := fun _ _ w => (Ok tt, w) |}.

(** The initializer of [Memory], with a root file path, or with the empty
    string for one. *)
Definition initializerAt (rootPath : string)
    : ContainerInitializer.ContainerInitializer World :=
  ContainerInitializer.new pathUtil
    {| ContainerInitializer.args_baseUrl := root;
       ContainerInitializer.args_path := EmptyString;
       ContainerInitializer.args_store := memStore;
       ContainerInitializer.args_generator := fun _ _ => twoResources;
       ContainerInitializer.args_storageKey := "rootInitialized";
       ContainerInitializer.args_storage := storageSet;
       ContainerInitializer.args_rootFilePath := Some rootPath;
       ContainerInitializer.args_accountFolder := Some "templates/accounts";
       ContainerInitializer.args_webIdSuffix := None |}.

(** Command-line arguments, and variable computers over them. *)
Definition portArguments : VarResolver.Arguments :=
  {| VarResolver.positional := [];
     VarResolver.options :=
       [("port", VarResolver.Single "3000");
        ("baseUrl", VarResolver.Single "http://localhost:3000/")] |}.

Definition repeatedArguments : VarResolver.Arguments :=
  {| VarResolver.positional := [];
     VarResolver.options :=
       [("config", VarResolver.Single "default.json");
        ("port", VarResolver.Multiple ["3000"; "3001"]);
        ("baseUrl", VarResolver.Multiple ["a"; "b"])] |}.

Definition positionalArguments : VarResolver.Arguments :=
  {| VarResolver.positional := ["start"; "now"];
     VarResolver.options := [("port", VarResolver.Multiple ["3000"; "3001"])] |}.

(** The value of an option, or an error when it is missing. *)
Definition optionComputer (key : string) : @VarResolver.VarComputer World string :=
  fun args w =>
    match find (fun e => String.eqb (fst e) key) (VarResolver.options args) with
    | Some (_, VarResolver.Single v) => (Ok v, w)
    | _ => (Err {| kind := OtherError; message := "missing option" |}, w)
    end.

Definition computers : list (string * @VarResolver.VarComputer World string) :=
  [("urn:port", optionComputer "port");
   ("urn:baseUrl", optionComputer "baseUrl")].

Definition protoComputers : list (string * @VarResolver.VarComputer World string) :=
  [("__proto__", optionComputer "baseUrl");
   ("urn:port", optionComputer "port")].

Definition brokenComputers : list (string * @VarResolver.VarComputer World string) :=
  [("urn:port", optionComputer "port");
   ("urn:rootFilePath", optionComputer "rootFilePath");
   ("urn:baseUrl", optionComputer "baseUrl")].

End Scenarios.

(* ===================================================================== *)
(** * Properties *)
(* ===================================================================== *)

(** ** Running the monad *)

Section MonadFacts.
Context {W : Type}.

Lemma after_nil {A} (x : Result A * W * list Event) : after [] x = x.
Proof. destruct x as [[r w] t]. reflexivity. Qed.

Lemma after_after {A} (t1 t2 : list Event) (x : Result A * W * list Event) :
  after t1 (after t2 x) = after (t1 ++ t2) x.
Proof. unfold after, outcome, final, calls. simpl. now rewrite app_assoc. Qed.

Lemma bind_ok {A B} (m : M W A) (k : A -> M W B) w a w1 t1 :
  m w = (Ok a, w1, t1) -> bind m k w = after t1 (k a w1).
Proof.
  intros H. unfold bind, after, outcome, final, calls. rewrite H.
  destruct (k a w1) as [[r w2] t2]. reflexivity.
Qed.

Lemma bind_err {A B} (m : M W A) (k : A -> M W B) w e w1 t1 :
  m w = (Err e, w1, t1) -> bind m k w = (Err e, w1, t1).
Proof. intros H. unfold bind. now rewrite H. Qed.

Lemma bind_emit {B} ev (k : unit -> M W B) w :
  bind (emit ev) k w = after [ev] (k tt w).
Proof. now apply bind_ok. Qed.

Lemma bind_ret {A B} (a : A) (k : A -> M W B) w :
  bind (ret a) k w = k a w.
Proof. unfold bind, ret. now destruct (k a w) as [[r w2] t2]. Qed.

Lemma call_run {A} ev (op : Op W A) w r w1 :
  op w = (r, w1) -> call ev op w = (r, w1, [ev]).
Proof. intros H. unfold call. now rewrite H. Qed.

Lemma try_ok {A} (m : M W A) h w a w1 t1 :
  m w = (Ok a, w1, t1) -> tryCatch m h w = (Ok a, w1, t1).
Proof. intros H. unfold tryCatch. now rewrite H. Qed.

Lemma try_err {A} (m : M W A) h w e w1 t1 :
  m w = (Err e, w1, t1) -> tryCatch m h w = after t1 (h e w1).
Proof.
  intros H. unfold tryCatch, after, outcome, final, calls. rewrite H.
  destruct (h e w1) as [[r w2] t2]. reflexivity.
Qed.
End MonadFacts.

Lemma storeCalls_app (t1 t2 : list Event) :
  storeCalls (t1 ++ t2) = storeCalls t1 ++ storeCalls t2.
Proof. apply flat_map_app. Qed.

Lemma patcherCalls_app (t1 t2 : list Event) :
  patcherCalls (t1 ++ t2) = patcherCalls t1 ++ patcherCalls t2.
Proof. apply flat_map_app. Qed.

Lemma accessorCalls_app (t1 t2 : list Event) :
  accessorCalls (t1 ++ t2) = accessorCalls t1 ++ accessorCalls t2.
Proof. apply List.filter_app. Qed.

Lemma accessorTargets_app (t1 t2 : list Event) :
  accessorTargets (t1 ++ t2) = accessorTargets t1 ++ accessorTargets t2.
Proof. apply flat_map_app. Qed.

Lemma operationHandlerCalls_app (t1 t2 : list Event) :
  operationHandlerCalls (t1 ++ t2) =
  operationHandlerCalls t1 ++ operationHandlerCalls t2.
Proof. apply flat_map_app. Qed.

Lemma storageSets_app (t1 t2 : list Event) :
  storageSets (t1 ++ t2) = storageSets t1 ++ storageSets t2.
Proof. apply flat_map_app. Qed.

Lemma stages_app (t1 t2 : list Event) :
  stages (t1 ++ t2) = stages t1 ++ stages t2.
Proof. apply flat_map_app. Qed.

(** The projections go through concatenation. *)
Create Rewrite HintDb projections.
#[local] Hint Rewrite storeCalls_app patcherCalls_app accessorCalls_app
  accessorTargets_app operationHandlerCalls_app storageSets_app stages_app
  : projections.

(** ** PassthroughStore *)

Section PassthroughFacts.
Context {W : Type}.
Variable S : ResourceStore W.

(** Wrapping changes no operation. *)
Lemma passthrough_same : PassthroughStore.new S = S.
Proof. destruct S. reflexivity. Qed.

Lemma recorded_run {A} (c : StoreCall) (op : Op W A) w log :
  recorded c op (w, log) = (fst (op w), (snd (op w), log ++ [c])).
Proof. unfold recorded. simpl. now destruct (op w). Qed.
End PassthroughFacts.

(** C5.  A [PassthroughStore] around [S] is, operation for operation, the
    store [S]: it returns what [S] returns and leaves the state [S] leaves.
    Around a recording of [S], each of the six operations adds to the log
    exactly one call, the corresponding one with the arguments it was given,
    and answers as [S] does. *)
Theorem passthrough_delegates (W : Type) (S : ResourceStore W)
    (w : W) (log : list StoreCall) :
  let D := PassthroughStore.new (RecordingStore S) in
  PassthroughStore.new S = S /\
  (forall i,
     hasResource D i (w, log) =
     (fst (hasResource S i w), (snd (hasResource S i w), log ++ [HasResource i]))) /\
  (forall i p c,
     getRepresentation D i p c (w, log) =
     (fst (getRepresentation S i p c w),
      (snd (getRepresentation S i p c w), log ++ [GetRepresentation i p c]))) /\
  (forall i r c,
     addResource D i r c (w, log) =
     (fst (addResource S i r c w),
      (snd (addResource S i r c w), log ++ [AddResource i r c]))) /\
  (forall i c,
     deleteResource D i c (w, log) =
     (fst (deleteResource S i c w),
      (snd (deleteResource S i c w), log ++ [DeleteResource i c]))) /\
  (forall i p c q,
     modifyResource D i p c q (w, log) =
     (fst (modifyResource S i p c q w),
      (snd (modifyResource S i p c q w), log ++ [ModifyResource i p c q]))) /\
  (forall i r c q,
     setRepresentation D i r c q (w, log) =
     (fst (setRepresentation S i r c q w),
      (snd (setRepresentation S i r c q w), log ++ [SetRepresentation i r c q]))).
Proof.
  intros D. split; [apply passthrough_same|].
  subst D. rewrite passthrough_same. simpl.
  repeat split; intros; apply recorded_run.
Qed.

(** ** RepresentationPatchHandler *)

Section PatchHandlerFacts.
Import RepresentationPatchHandler.
Context {W : Type}.
Variable env : Platform W.
Variable patcher : RepresentationPatcherInput -> Op W Representation.

Lemma sideChannel_storeCalls t :
  Forall (fun ev => isSideChannel ev = true) t -> storeCalls t = [].
Proof.
  induction 1 as [|ev t Hev _ IH]; [reflexivity|].
  destruct ev; try discriminate Hev; exact IH.
Qed.

Lemma sideChannel_patcherCalls t :
  Forall (fun ev => isSideChannel ev = true) t -> patcherCalls t = [].
Proof.
  induction 1 as [|ev t Hev _ IH]; [reflexivity|].
  destruct ev; try discriminate Hev; exact IH.
Qed.

Ltac loop_step IH getp putp :=
  match goal with
  | |- loopSpec (?p :: ?l) (_ ?w) =>
      destruct (accessor_getData env {| path := p |} getp w)
        as [[d|e] w1] eqn:Hget;
      [ destruct (accessor_writeDocument env {| path := p |} d
                    (newMetadata {| path := p |}) putp w1)
          as [[[]|e] w2] eqn:Hput
      | ]
  end.

Lemma rewriteSecure_spec l : forall w, loopSpec l (rewriteSecure env l w).
Proof.
  induction l as [|p l IH]; intros w.
  - split; [constructor | reflexivity].
  - loop_step IH (Some (securePreferences 0)) (@None RepresentationPreferences);
      cbn [rewriteSecure].
    + erewrite bind_ok by (apply call_run; exact Hget).
      erewrite bind_ok by (apply call_run; exact Hput).
      rewrite after_after. destruct (IH w2) as [Hall Hout].
      unfold loopSpec, after, calls, outcome in *. cbn [fst snd app] in *.
      split; [repeat constructor; exact Hall|].
      destruct (fst (fst (rewriteSecure env l w2))).
      * unfold accessorTargets in *. cbn [flat_map app path]. now rewrite Hout.
      * destruct Hout as [rest Hrest]. exists rest.
        unfold accessorTargets in *. cbn [flat_map app path]. now rewrite Hrest.
    + erewrite bind_ok by (apply call_run; exact Hget).
      erewrite bind_err by (apply call_run; exact Hput).
      split; [repeat constructor|]. cbn.
      exists (flat_map (fun p => [p; p]) l). reflexivity.
    + erewrite bind_err by (apply call_run; exact Hget).
      split; [repeat constructor|]. cbn.
      exists (p :: flat_map (fun p => [p; p]) l). reflexivity.
Qed.

Lemma rewriteUnsecure_spec l : forall w, loopSpec l (rewriteUnsecure env l w).
Proof.
  induction l as [|p l IH]; intros w.
  - split; [constructor | reflexivity].
  - loop_step IH (@None RepresentationPreferences) (Some (securePreferences 0));
      cbn [rewriteUnsecure].
    + erewrite bind_ok by (apply call_run; exact Hget).
      erewrite bind_ok by (apply call_run; exact Hput).
      rewrite after_after. destruct (IH w2) as [Hall Hout].
      unfold loopSpec, after, calls, outcome in *. cbn [fst snd app] in *.
      split; [repeat constructor; exact Hall|].
      destruct (fst (fst (rewriteUnsecure env l w2))).
      * unfold accessorTargets in *. cbn [flat_map app path]. now rewrite Hout.
      * destruct Hout as [rest Hrest]. exists rest.
        unfold accessorTargets in *. cbn [flat_map app path]. now rewrite Hrest.
    + erewrite bind_ok by (apply call_run; exact Hget).
      erewrite bind_err by (apply call_run; exact Hput).
      split; [repeat constructor|]. cbn.
      exists (flat_map (fun p => [p; p]) l). reflexivity.
    + erewrite bind_err by (apply call_run; exact Hget).
      split; [repeat constructor|]. cbn.
      exists (p :: flat_map (fun p => [p; p]) l). reflexivity.
Qed.

Lemma secureBlock_spec p w :
  let x := secureBlock env p w in
  outcome x = Ok tt /\
  Forall (fun ev => isSideChannel ev = true) (calls x) /\
  exists rest, plannedTargets p = accessorTargets (calls x) ++ rest.
Proof.
  unfold secureBlock, plannedTargets. destruct (algebra p) as [a|].
  2: { cbn. repeat split; [constructor | now exists []]. }
  set (l1 := flaggedResources (deleteData a)).
  set (l2 := flaggedResources (insertData a)).
  rewrite flat_map_app.
  destruct (rewriteSecure_spec l1 w) as [H1 O1].
  destruct (rewriteSecure env l1 w) as [[r1 w1] t1] eqn:E1.
  cbn [calls outcome fst snd] in H1, O1.
  destruct r1 as [[]|e1].
  - destruct (rewriteUnsecure_spec l2 w1) as [H2 O2].
    destruct (rewriteUnsecure env l2 w1) as [[r2 w2] t2] eqn:E2.
    cbn [calls outcome fst snd] in H2, O2.
    destruct r2 as [[]|e2].
    + erewrite try_ok
        by (erewrite bind_ok by exact E1; rewrite E2; reflexivity).
      cbn [calls outcome fst snd]. repeat split.
      * apply Forall_app; split; assumption.
      * exists []. rewrite accessorTargets_app, O1, O2. now rewrite app_nil_r.
    + erewrite try_err
        by (erewrite bind_ok by exact E1; rewrite E2; reflexivity).
      cbn [after emit calls outcome final fst snd]. repeat split.
      * rewrite !Forall_app. repeat split; try assumption. repeat constructor.
      * destruct O2 as [rest Hrest]. exists rest.
        rewrite !accessorTargets_app, O1, Hrest. cbn [accessorTargets flat_map].
        now rewrite app_nil_r, app_assoc.
  - erewrite try_err by (erewrite bind_err by exact E1; reflexivity).
    cbn [after emit calls outcome final fst snd]. repeat split.
    + rewrite Forall_app. split; [assumption | repeat constructor].
    + destruct O1 as [rest Hrest].
      exists (rest ++ flat_map (fun x => [x; x]) l2).
      rewrite accessorTargets_app, Hrest. cbn [accessorTargets flat_map].
      now rewrite app_nil_r, app_assoc.
Qed.

Section PreRead.
Variable src : ResourceStore W.
Variable id : ResourceIdentifier.

Let getEvent := EvStore (GetRepresentation id emptyPreferences None).

Lemma preRead_found w r w1 :
  getRepresentation src id emptyPreferences None w = (Ok r, w1) ->
  preRead src id w = (Ok (Some r), w1, [getEvent]).
Proof.
  intros H. unfold preRead. apply try_ok.
  erewrite bind_ok by (apply call_run; exact H). reflexivity.
Qed.

Lemma preRead_absent w e w1 :
  getRepresentation src id emptyPreferences None w = (Err e, w1) ->
  isNotFound e = true ->
  preRead src id w =
  (Ok None, w1, [getEvent; EvLogger Debug (PatchingNewResource (path id))]).
Proof.
  intros H Hnf. unfold preRead.
  erewrite try_err by (erewrite bind_err by (apply call_run; exact H); reflexivity).
  rewrite Hnf. reflexivity.
Qed.

Lemma preRead_fails w e w1 :
  getRepresentation src id emptyPreferences None w = (Err e, w1) ->
  isNotFound e = false ->
  preRead src id w = (Err e, w1, [getEvent]).
Proof.
  intros H Hnf. unfold preRead.
  erewrite try_err by (erewrite bind_err by (apply call_run; exact H); reflexivity).
  rewrite Hnf. reflexivity.
Qed.
End PreRead.

(** Whatever step 1 hands to step 2, it has made one call, the pre-read. *)
Lemma preRead_yields (input : PatchHandlerInput W) w representation w1 :
  PreReadYields input w representation w1 ->
  exists t,
    preRead (source input) (identifier input) w = (Ok representation, w1, t) /\
    storeCalls t =
      [GetRepresentation (identifier input) emptyPreferences None] /\
    patcherCalls t = [] /\ accessorCalls t = [] /\ accessorTargets t = [].
Proof.
  intros [r w' H | e w' H Hnf]; eexists.
  - split; [apply preRead_found; exact H|]. repeat split.
  - split; [eapply preRead_absent; eassumption|]. repeat split.
Qed.

(** *** The three ways through [handle] *)

Section Runs.
Variable input : PatchHandlerInput W.

Let src := source input.
Let id := identifier input.
Let commitCall (patched : Representation) :=
  SetRepresentation id patched None (preferences input).

Lemma handle_preRead_fails w e w1 t1 :
  preRead src id w = (Err e, w1, t1) ->
  handle env patcher input w = (Err e, w1, t1).
Proof. intros H. unfold handle. now apply bind_err. Qed.

Lemma handle_patcher_fails w representation w1 t1 e w2 :
  preRead src id w = (Ok representation, w1, t1) ->
  patcher (patcherInput input representation) w1 = (Err e, w2) ->
  handle env patcher input w =
  (Err e, w2, t1 ++ [EvPatcher (patcherInput input representation)]).
Proof.
  intros H1 H2. unfold handle. erewrite bind_ok by exact H1.
  erewrite bind_err by (apply call_run; exact H2). reflexivity.
Qed.

Lemma handle_commits w representation w1 t1 patched w2 :
  preRead src id w = (Ok representation, w1, t1) ->
  patcher (patcherInput input representation) w1 = (Ok patched, w2) ->
  let block := secureBlock env (patch input) w2 in
  handle env patcher input w =
  after (t1 ++ [EvPatcher (patcherInput input representation)] ++
         calls block ++ [EvLogger Debug (PatchingNewResource (path id))])
    (call (EvStore (commitCall patched))
          (setRepresentation src id patched None (preferences input))
          (final block)).
Proof.
  intros H1 H2 block. unfold handle. erewrite bind_ok by exact H1.
  erewrite bind_ok by (apply call_run; exact H2).
  destruct (secureBlock_spec (patch input) w2) as [Hok _].
  fold block in Hok.
  destruct block as [[r w3] t3] eqn:Eb. cbn [outcome fst] in Hok. subst r.
  erewrite bind_ok by exact Eb. rewrite bind_emit.
  rewrite !after_after. cbn [calls final fst snd].
  now rewrite <- !app_assoc.
Qed.
End Runs.

(** C1.  If the pre-read fails with an error other than [NotFound], or the
    patcher fails, the handler fails with that error having made no call
    to [setRepresentation] and no call to the file accessor: its only
    call on the store is the pre-read.  With a pre-read and a patcher that
    leave the world as they found it, the world is then exactly as it was
    before the attempt. *)
Theorem failed_patch_never_commits
    (input : PatchHandlerInput W) (w : W) (e : HttpError) :
  ReadOnly (getRepresentation (source input) (identifier input)
              emptyPreferences None) ->
  (forall i, ReadOnly (patcher i)) ->
  PatchFails patcher input w e ->
  let run := handle env patcher input w in
  outcome run = Err e /\
  List.filter isSetRepresentation (storeCalls (calls run)) = [] /\
  storeCalls (calls run) =
    [GetRepresentation (identifier input) emptyPreferences None] /\
  accessorCalls (calls run) = [] /\
  final run = w.
Proof.
  intros Hget Hpatcher Hfails run.
  destruct Hfails as [w1 H Hnf | representation w1 w2 Hpre Hp].
  - assert (w1 = w) as -> by (specialize (Hget w); rewrite H in Hget; exact Hget).
    subst run.
    erewrite handle_preRead_fails by (eapply preRead_fails; eassumption).
    repeat split.
  - assert (w1 = w) as ->.
    { destruct Hpre as [r w' H | e0 w' H Hnf];
        specialize (Hget w); rewrite H in Hget; exact Hget. }
    assert (w2 = w) as ->
      by (specialize (Hpatcher (patcherInput input representation) w);
          rewrite Hp in Hpatcher; exact Hpatcher).
    destruct (preRead_yields Hpre) as (t & Ht & Hs & _ & Ha & _).
    subst run. erewrite handle_patcher_fails by eassumption.
    cbn [outcome final calls fst snd].
    rewrite storeCalls_app, accessorCalls_app, Hs, Ha. repeat split.
Qed.

(** C6.  When the pre-read fails: on [NotFound] the handler goes on, the
    patcher is called once and is handed an absent representation, and the
    outcome is that of the patcher or, if the patcher succeeds, that of the
    commit of what it returned; on any other error the handler stops there
    with that very error, the pre-read being its only call. *)
Theorem absent_resource_is_patched
    (input : PatchHandlerInput W) (w : W) (e0 : HttpError) (w1 : W) :
  getRepresentation (source input) (identifier input) emptyPreferences None w
    = (Err e0, w1) ->
  let getCall := GetRepresentation (identifier input) emptyPreferences None in
  let run := handle env patcher input w in
  if isNotFound e0 then
    patcherCalls (calls run) = [patcherInput input None] /\
    match patcher (patcherInput input None) w1 with
    | (Err e, w2) => outcome run = Err e /\ storeCalls (calls run) = [getCall]
    | (Ok patched, w2) =>
        exists w3,
          (outcome run, final run) =
            setRepresentation (source input) (identifier input) patched None
              (preferences input) w3 /\
          storeCalls (calls run) =
            [getCall;
             SetRepresentation (identifier input) patched None
               (preferences input)]
    end
  else
    run = (Err e0, w1, [EvStore getCall]).
Proof.
  intros H getCall run. destruct (isNotFound e0) eqn:Hnf.
  - pose proof (preRead_absent _ _ _ H Hnf) as Hpre.
    destruct (patcher (patcherInput input None) w1) as [[patched|e] w2] eqn:Hp.
    + subst run. erewrite handle_commits by eassumption.
      destruct (secureBlock_spec (patch input) w2) as (_ & Hside & _).
      destruct (secureBlock env (patch input) w2) as [[rb w3] tb].
      cbn [calls final fst snd] in *.
      destruct (setRepresentation (source input) (identifier input) patched
                  None (preferences input) w3) as [r w4] eqn:Hset.
      erewrite call_run by exact Hset.
      cbn [after outcome final calls fst snd].
      autorewrite with projections.
      rewrite (sideChannel_patcherCalls Hside), (sideChannel_storeCalls Hside).
      split; [reflexivity|].
      exists w3. split; [now rewrite Hset | reflexivity].
    + subst run. erewrite handle_patcher_fails by eassumption.
      repeat split.
  - subst run.
    now erewrite handle_preRead_fails by (eapply preRead_fails; eassumption).
Qed.

(** C7.  When the patcher succeeds, the handler's last call is
    [source.setRepresentation(identifier, patched, undefined, preferences)],
    with [patched] the patcher's output and [preferences] the caller's; it
    is the only call to [setRepresentation], and the handler's outcome and
    the world it leaves are those of that call. *)
Theorem commit_is_the_single_set
    (input : PatchHandlerInput W) (w : W)
    (representation : option Representation) (w1 : W)
    (patched : Representation) (w2 : W) :
  PreReadYields input w representation w1 ->
  patcher (patcherInput input representation) w1 = (Ok patched, w2) ->
  let run := handle env patcher input w in
  exists t w3,
    calls run =
      t ++ [EvStore (SetRepresentation (identifier input) patched None
                       (preferences input))] /\
    List.filter isSetRepresentation (storeCalls t) = [] /\
    (outcome run, final run) =
      setRepresentation (source input) (identifier input) patched None
        (preferences input) w3.
Proof.
  intros Hpre Hp run.
  destruct (preRead_yields Hpre) as (t1 & Ht & Hs & _).
  subst run. erewrite handle_commits by eassumption.
  destruct (secureBlock_spec (patch input) w2) as (_ & Hside & _).
  destruct (secureBlock env (patch input) w2) as [[rb w3] tb].
  cbn [calls final fst snd] in *.
  destruct (setRepresentation (source input) (identifier input) patched
              None (preferences input) w3) as [r w4] eqn:Hset.
  erewrite call_run by exact Hset.
  cbn [after outcome final calls fst snd].
  eexists _, w3. split; [|split].
  - reflexivity.
  - rewrite !storeCalls_app, Hs, (sideChannel_storeCalls Hside). reflexivity.
  - now rewrite Hset.
Qed.

(** The frame of the calls of [handle]: the patcher is called at most once
    and is handed the patch and the identifier as they came; the calls on
    the store are the pre-read and, when the patcher succeeds, the commit;
    the resources the file accessor is called on are an initial part of
    those the patch flags. *)
Lemma patch_calls_frame (input : PatchHandlerInput W) (w : W) :
  let getCall := GetRepresentation (identifier input) emptyPreferences None in
  let run := handle env patcher input w in
  (forall i, In i (patcherCalls (calls run)) ->
     pi_patch i = patch input /\ pi_identifier i = identifier input) /\
  length (patcherCalls (calls run)) <= 1 /\
  (storeCalls (calls run) = [getCall] \/
   exists patched,
     storeCalls (calls run) =
       [getCall;
        SetRepresentation (identifier input) patched None (preferences input)]) /\
  (exists rest,
     plannedTargets (patch input) = accessorTargets (calls run) ++ rest) /\
  (algebra (patch input) = None -> accessorCalls (calls run) = []).
Proof.
  intros getCall run.
  assert (forall representation w1,
            PreReadYields input w representation w1 ->
            (forall i, In i (patcherCalls (calls run)) ->
               pi_patch i = patch input /\ pi_identifier i = identifier input) /\
            length (patcherCalls (calls run)) <= 1 /\
            (storeCalls (calls run) = [getCall] \/
             exists patched,
               storeCalls (calls run) =
                 [getCall;
                  SetRepresentation (identifier input) patched None
                    (preferences input)]) /\
            (exists rest,
               plannedTargets (patch input) = accessorTargets (calls run) ++ rest) /\
            (algebra (patch input) = None -> accessorCalls (calls run) = []))
    as Hyields.
  { intros representation w1 Hpre.
    destruct (preRead_yields Hpre) as (t1 & Ht & Hs & Hp0 & Ha & Hat).
    destruct (patcher (patcherInput input representation) w1)
      as [[patched|e] w2] eqn:Hp; subst run.
    - erewrite handle_commits by eassumption.
      destruct (secureBlock_spec (patch input) w2) as (_ & Hside & rest & Hrest).
      pose proof (fun H : algebra (patch input) = None =>
                    f_equal calls
                      (eq_refl (secureBlock env (patch input) w2))) as Hnone.
      unfold secureBlock at 2 in Hnone.
      destruct (secureBlock env (patch input) w2) as [[rb w3] tb].
      cbn [calls final fst snd] in *.
      destruct (setRepresentation (source input) (identifier input) patched
                  None (preferences input) w3) as [r w4] eqn:Hset.
      erewrite call_run by exact Hset.
      cbn [after outcome final calls fst snd].
      rewrite !patcherCalls_app, !storeCalls_app, !accessorTargets_app,
        !accessorCalls_app, Hs, Hp0, Ha, Hat,
        (sideChannel_patcherCalls Hside), (sideChannel_storeCalls Hside).
      cbn. rewrite !app_nil_r. split; [|split; [|split; [|split]]].
      + intros i [<-|[]]; split; reflexivity.
      + lia.
      + right. now exists patched.
      + now exists rest.
      + intros Hnone'. specialize (Hnone Hnone'). rewrite Hnone' in Hnone.
        cbn in Hnone. now subst tb.
    - erewrite handle_patcher_fails by eassumption.
      cbn [calls snd].
      rewrite !patcherCalls_app, !storeCalls_app, !accessorTargets_app,
        !accessorCalls_app, Hs, Hp0, Ha, Hat.
      cbn. split; [|split; [|split; [|split]]].
      + intros i [<-|[]]; split; reflexivity.
      + lia.
      + now left.
      + now exists (plannedTargets (patch input)).
      + reflexivity. }
  destruct (getRepresentation (source input) (identifier input)
              emptyPreferences None w) as [[r|e0] w1] eqn:Hget.
  - apply (Hyields (Some r) w1). now apply PreReadFound with (r := r).
  - destruct (isNotFound e0) eqn:Hnf.
    + apply (Hyields None w1). now apply PreReadAbsent with (e := e0).
    + subst run.
      erewrite handle_preRead_fails by (eapply preRead_fails; eassumption).
      cbn. split; [|split; [|split; [|split]]].
      * intros i [].
      * lia.
      * now left.
      * now exists (plannedTargets (patch input)).
      * reflexivity.
Qed.

(** *** The block between patcher and commit, call by call *)

Lemma rewrites_app plan1 plan2 w :
  rewrites env (plan1 ++ plan2) w =
  match rewrites env plan1 w with
  | (t1, w1, Some e) => (t1, w1, Some e)
  | (t1, w1, None) =>
      let '(t2, w2, failure) := rewrites env plan2 w1 in
      (t1 ++ t2, w2, failure)
  end.
Proof.
  revert w. induction plan1 as [|[[p rp] wp] plan1 IH]; intros w.
  - cbn. now destruct (rewrites env plan2 w) as [[t2 w2] failure].
  - cbn [app rewrites].
    destruct (accessor_getData env {| path := p |} rp w) as [[d|e] w1];
      [|reflexivity].
    destruct (accessor_writeDocument env {| path := p |} d
                (newMetadata {| path := p |}) wp w1) as [[[]|e] w2];
      [|reflexivity].
    rewrite IH.
    destruct (rewrites env plan1 w2) as [[t1 w3] [e|]]; [reflexivity|].
    now destruct (rewrites env plan2 w3) as [[t2 w4] failure].
Qed.

Lemma rewriteSecure_is_rewrites l : forall w,
  rewriteSecure env l w =
  loopRun (rewrites env (map (fun p => (p, Some (securePreferences 0), None)) l) w).
Proof.
  induction l as [|p l IH]; intros w; [reflexivity|].
  cbn [rewriteSecure map rewrites].
  destruct (accessor_getData env {| path := p |} (Some (securePreferences 0)) w)
    as [[d|e] w1] eqn:Hget.
  - erewrite bind_ok by (apply call_run; exact Hget). cbv beta.
    destruct (accessor_writeDocument env {| path := p |} d
                (newMetadata {| path := p |}) None w1) as [[[]|e] w2] eqn:Hput.
    + erewrite bind_ok by (apply call_run; exact Hput).
      rewrite IH, after_after.
      now destruct (rewrites env
                      (map (fun p => (p, Some (securePreferences 0), None)) l) w2)
        as [[t w3] failure].
    + erewrite bind_err by (apply call_run; exact Hput). reflexivity.
  - erewrite bind_err by (apply call_run; exact Hget). reflexivity.
Qed.

Lemma rewriteUnsecure_is_rewrites l : forall w,
  rewriteUnsecure env l w =
  loopRun (rewrites env (map (fun p => (p, None, Some (securePreferences 0))) l) w).
Proof.
  induction l as [|p l IH]; intros w; [reflexivity|].
  cbn [rewriteUnsecure map rewrites].
  destruct (accessor_getData env {| path := p |} None w)
    as [[d|e] w1] eqn:Hget.
  - erewrite bind_ok by (apply call_run; exact Hget). cbv beta.
    destruct (accessor_writeDocument env {| path := p |} d
                (newMetadata {| path := p |}) (Some (securePreferences 0)) w1)
      as [[[]|e] w2] eqn:Hput.
    + erewrite bind_ok by (apply call_run; exact Hput).
      rewrite IH, after_after.
      now destruct (rewrites env
                      (map (fun p => (p, None, Some (securePreferences 0))) l) w2)
        as [[t w3] failure].
    + erewrite bind_err by (apply call_run; exact Hput). reflexivity.
  - erewrite bind_err by (apply call_run; exact Hget). reflexivity.
Qed.

(** The block is a run of the plan of the patch, with the error of the
    failing call, if any, handed to [console.log]. *)
Lemma secureBlock_is_rewrites p w :
  secureBlock env p w =
  (Ok tt, snd (fst (rewrites env (rewritePlan p) w)),
   blockCalls (rewrites env (rewritePlan p) w)).
Proof.
  unfold secureBlock, rewritePlan. destruct (algebra p) as [a|]; [|reflexivity].
  rewrite rewrites_app.
  set (l1 := map (fun x => (x, Some (securePreferences 0), None))
               (flaggedResources (deleteData a))).
  set (l2 := map (fun x => (x, None, Some (securePreferences 0)))
               (flaggedResources (insertData a))).
  pose proof (rewriteSecure_is_rewrites (flaggedResources (deleteData a)) w)
    as H1. fold l1 in H1.
  destruct (rewrites env l1 w) as [[t1 w1] [e1|]]; unfold loopRun in H1;
    cbn [fst snd] in H1.
  - erewrite try_err by (apply bind_err; exact H1). reflexivity.
  - pose proof (rewriteUnsecure_is_rewrites (flaggedResources (insertData a)) w1)
      as H2. fold l2 in H2.
    destruct (rewrites env l2 w1) as [[t2 w2] [e2|]]; unfold loopRun in H2;
      cbn [fst snd] in H2.
    + erewrite try_err
        by (erewrite bind_ok by exact H1; rewrite H2; reflexivity).
      reflexivity.
    + erewrite try_ok
        by (erewrite bind_ok by exact H1; rewrite H2; reflexivity).
      unfold blockCalls. cbn [fst snd]. now rewrite app_nil_r.
Qed.

Lemma rewrites_accessorCalls plan : forall w,
  accessorCalls (fst (fst (rewrites env plan w))) =
  fst (fst (rewrites env plan w)).
Proof.
  induction plan as [|[[p rp] wp] plan IH]; intros w; [reflexivity|].
  cbn [rewrites].
  destruct (accessor_getData env {| path := p |} rp w) as [[d|e] w1];
    [|reflexivity].
  destruct (accessor_writeDocument env {| path := p |} d
              (newMetadata {| path := p |}) wp w1) as [[[]|e] w2];
    [|reflexivity].
  specialize (IH w2).
  destruct (rewrites env plan w2) as [[t w3] failure].
  cbn [fst] in IH |- *. unfold accessorCalls in *.
  cbn [List.filter isAccessorCall]. now rewrite IH.
Qed.

Lemma blockCalls_accessorCalls plan w :
  accessorCalls (blockCalls (rewrites env plan w)) =
  fst (fst (rewrites env plan w)).
Proof.
  unfold blockCalls. rewrite accessorCalls_app, rewrites_accessorCalls.
  destruct (snd (rewrites env plan w)); cbn; apply app_nil_r.
Qed.

Lemma filter_sideChannel t :
  Forall (fun ev => isSideChannel ev = true) t ->
  List.filter isSideChannel t = t.
Proof.
  induction 1 as [|ev t Hev _ IH]; [reflexivity|].
  cbn. now rewrite Hev, IH.
Qed.

Lemma preRead_sideChannel (input : PatchHandlerInput W) w representation w1 :
  PreReadYields input w representation w1 ->
  exists t,
    preRead (source input) (identifier input) w = (Ok representation, w1, t) /\
    storeCalls t =
      [GetRepresentation (identifier input) emptyPreferences None] /\
    List.filter isSideChannel t = [].
Proof.
  intros [r w' H | e w' H Hnf]; eexists.
  - split; [apply preRead_found; exact H|]. split; reflexivity.
  - split; [eapply preRead_absent; eassumption|]. split; reflexivity.
Qed.

End PatchHandlerFacts.

(** *** The patch handler on the in-memory deployment *)

Lemma memStore_get_readOnly i p c :
  ReadOnly (getRepresentation Memory.memStore i p c).
Proof.
  intros w. cbn. destruct (Memory.docs w !! path i) as [r|]; [|reflexivity].
  now destruct (Memory.satisfied c (Some r)).
Qed.

Lemma failingPatcher_readOnly i : ReadOnly (Memory.failingPatcher i).
Proof. intros w. reflexivity. Qed.

(** A patcher made to fail: the store sees the pre-read and nothing else. *)
Lemma failed_patch_never_commits_witness :
  let input := Memory.patchInput Memory.doc Memory.flaggingPatch in
  let e := {| kind := ValidationError; message := "bad patch" |} in
  let run :=
    RepresentationPatchHandler.handle Memory.platform Memory.failingPatcher
      input Memory.world0 in
  PatchFails Memory.failingPatcher input Memory.world0 e /\
  outcome run = Err e /\
  List.filter isSetRepresentation (storeCalls (calls run)) = [] /\
  storeCalls (calls run) =
    [GetRepresentation Memory.doc emptyPreferences None] /\
  accessorCalls (calls run) = [] /\
  final run = Memory.world0.
Proof.
  intros input e run.
  assert (PatchFails Memory.failingPatcher input Memory.world0 e) as Hfails.
  { apply (@PatcherFails _ Memory.failingPatcher input Memory.world0 e
             (Some Memory.docRepresentation) Memory.world0 Memory.world0).
    - apply PreReadFound. vm_compute. reflexivity.
    - reflexivity. }
  split; [exact Hfails|].
  apply (@failed_patch_never_commits _ Memory.platform Memory.failingPatcher
           input Memory.world0 e).
  - apply memStore_get_readOnly.
  - apply failingPatcher_readOnly.
  - exact Hfails.
Defined.

(** Patching a resource that does not exist. *)
Lemma absent_resource_is_patched_witness :
  let input := Memory.patchInput Memory.missing Memory.opaquePatch in
  let run :=
    RepresentationPatchHandler.handle Memory.platform Memory.constantPatcher
      input Memory.world0 in
  getRepresentation Memory.memStore Memory.missing emptyPreferences None
    Memory.world0
    = (Err (Memory.notFound (path Memory.missing)), Memory.world0) /\
  patcherCalls (calls run) = [patcherInput input None] /\
  exists w3,
    (outcome run, final run) =
      setRepresentation Memory.memStore Memory.missing
        Memory.patchedRepresentation None None w3 /\
    storeCalls (calls run) =
      [GetRepresentation Memory.missing emptyPreferences None;
       SetRepresentation Memory.missing Memory.patchedRepresentation None None].
Proof.
  intros input run.
  assert (getRepresentation Memory.memStore Memory.missing emptyPreferences
            None Memory.world0
          = (Err (Memory.notFound (path Memory.missing)), Memory.world0))
    as Hget by (vm_compute; reflexivity).
  split; [exact Hget|].
  exact (@absent_resource_is_patched _ Memory.platform Memory.constantPatcher
           input Memory.world0 _ _ Hget).
Defined.

(** The resource exists afterwards, with the patcher's content. *)
Example patch_creates_resource :
  let run :=
    RepresentationPatchHandler.handle Memory.platform Memory.constantPatcher
      (Memory.patchInput Memory.missing Memory.opaquePatch) Memory.world0 in
  fst (hasResource Memory.memStore Memory.missing Memory.world0) = Ok false /\
  outcome run = Ok [Memory.missing] /\
  fst (hasResource Memory.memStore Memory.missing (final run)) = Ok true /\
  fst (getRepresentation Memory.memStore Memory.missing emptyPreferences None
         (final run)) = Ok Memory.patchedRepresentation.
Proof. vm_compute. repeat split; reflexivity. Qed.

(** A successful patch of an existing resource. *)
Lemma commit_is_the_single_set_witness :
  let input := Memory.patchInput Memory.doc Memory.opaquePatch in
  let run :=
    RepresentationPatchHandler.handle Memory.platform Memory.constantPatcher
      input Memory.world0 in
  PreReadYields input Memory.world0 (Some Memory.docRepresentation)
    Memory.world0 /\
  exists t w3,
    calls run =
      t ++ [EvStore (SetRepresentation Memory.doc Memory.patchedRepresentation
                       None None)] /\
    List.filter isSetRepresentation (storeCalls t) = [] /\
    (outcome run, final run) =
      setRepresentation Memory.memStore Memory.doc Memory.patchedRepresentation
        None None w3.
Proof.
  intros input run.
  assert (PreReadYields input Memory.world0 (Some Memory.docRepresentation)
            Memory.world0) as Hpre
    by (apply PreReadFound; vm_compute; reflexivity).
  split; [exact Hpre|].
  exact (@commit_is_the_single_set _ Memory.platform Memory.constantPatcher
           input Memory.world0 _ _ _ Memory.world0 Hpre eq_refl).
Defined.



(** ** AuthorizingHttpHandler *)

Section AuthorizingFacts.
Import AuthorizingHttpHandler.
Context {W : Type}.
Variable env : Platform W.
Variable args : AuthorizingHttpHandlerArgs W.

Ltac run_call :=
  first [ erewrite bind_ok by (apply call_run; eassumption)
        | erewrite bind_err by (apply call_run; eassumption)
        | rewrite bind_emit ];
  cbv beta iota.

Lemma authorizeBlock_ok o c m ps ap w3 w4 :
  authorizer args (authorizerInput o c m ps) w3 = (Ok tt, w4) ->
  authorizeBlock args o c m ps ap w3 =
  (Ok (attach o ps ap), w4, [EvAuthorizer (authorizerInput o c m ps)]).
Proof.
  intros H. unfold authorizeBlock. apply try_ok. run_call. reflexivity.
Qed.

Lemma authorizeBlock_err o c m ps ap w3 e w4 :
  authorizer args (authorizerInput o c m ps) w3 = (Err e, w4) ->
  authorizeBlock args o c m ps ap w3 =
  (Err e, w4,
   [EvAuthorizer (authorizerInput o c m ps);
    EvLogger Verbose (AuthorizationFailed (message e))]).
Proof.
  intros H. unfold authorizeBlock.
  erewrite try_err by (run_call; reflexivity). reflexivity.
Qed.

Lemma authorizing_secureBlock_runs o1 w :
  SecureBlockRuns env o1 w (secureBlock env o1 w).
Proof.
  unfold secureBlock.
  destruct (isRootContainer env (target o1)) eqn:Hroot; cbn [negb].
  - apply BlockSkipsRoot; exact Hroot.
  - destruct (getParentContainer env (target o1)) as [parent|err] eqn:Hparent.
    + destruct (accessor_getMetadata env parent w) as [[md|err] w'] eqn:Hmd.
      * erewrite try_ok
          by (erewrite bind_ok by reflexivity; cbv beta; run_call; reflexivity).
        eapply BlockSetsFlag; eassumption.
      * erewrite try_err
          by (erewrite bind_ok by reflexivity; cbv beta; run_call; reflexivity).
        eapply BlockMetadataThrows; eassumption.
    + erewrite try_err by (erewrite bind_err by reflexivity; reflexivity).
      eapply BlockParentThrows; eassumption.
Qed.

Lemma secureBlock_never_fails o1 w :
  exists o2, outcome (secureBlock env o1 w) = Ok o2.
Proof.
  destruct (authorizing_secureBlock_runs o1 w); eexists; reflexivity.
Qed.

Section Runs.
Variable input : OperationHttpHandlerInput.

Let req := request input.
Let o := operation input.

Lemma handle_unauthorized w c m ps ap w3 e w4 :
  Resolved args input w c m ps ap w3 ->
  authorizer args (authorizerInput o c m ps) w3 = (Err e, w4) ->
  handle env args input w =
  (Err e, w4,
   resolvedCalls input c m ps ++
   [EvAuthorizer (authorizerInput o c m ps);
    EvLogger Verbose (AuthorizationFailed (message e))]).
Proof.
  intros (w1 & w2 & Hc & Hm & Hp) Ha. unfold handle. cbv zeta.
  do 6 run_call.
  erewrite bind_err by (apply authorizeBlock_err; exact Ha).
  reflexivity.
Qed.

Lemma handle_authorized w c m ps ap w4 :
  Authorized args input w c m ps ap w4 ->
  let block := secureBlock env (attach o ps ap) w4 in
  exists o2,
    outcome block = Ok o2 /\
    handle env args input w =
    after (resolvedCalls input c m ps ++
           [EvAuthorizer (authorizerInput o c m ps);
            EvLogger Verbose AuthorizationSucceeded] ++
           calls block ++
           [EvLoggerFile (agent c)
              (match body o2 with Some b => sparql b | None => None end)])
      (call (EvOperationHandler {| request := req; operation := o2 |})
            (operationHandler args {| request := req; operation := o2 |})
            (final block)).
Proof.
  intros (w3 & (w1 & w2 & Hc & Hm & Hp) & Ha) block.
  destruct (secureBlock_never_fails (attach o ps ap) w4) as [o2 Ho2].
  fold block in Ho2. exists o2. split; [exact Ho2|].
  unfold handle. cbv zeta. do 6 run_call.
  erewrite bind_ok by (apply authorizeBlock_ok; exact Ha). cbv beta.
  run_call.
  destruct block as [[r w5] t5] eqn:Hb. cbn [outcome fst] in Ho2. subst r.
  erewrite bind_ok by exact Hb. cbv beta. run_call.
  rewrite !after_after. cbn [calls final fst snd].
  unfold resolvedCalls. cbn [app]. reflexivity.
Qed.
End Runs.

(** An operation that passes the authorize stage has gone through the four
    stages in order, and then reaches the downstream handler. *)
Lemma authorized_runs_every_stage
    (input : OperationHttpHandlerInput) (w : W)
    (c : CredentialSet) (m : ModeSet) (ps : PermissionSet)
    (ap : AttributePermissions) (w4 : W) :
  Authorized args input w c m ps ap w4 ->
  stages (calls (handle env args input w)) = stagesUpTo StageOperation.
Proof.
  intros Hauth.
  destruct (handle_authorized Hauth) as (o2 & Ho2 & ->).
  pose proof (authorizing_secureBlock_runs (attach (operation input) ps ap) w4)
    as Hblock.
  destruct (secureBlock env (attach (operation input) ps ap) w4)
    as [[rb w5] tb].
  assert (stages tb = []) as Htb by (inversion Hblock; reflexivity).
  cbn [calls final fst snd].
  destruct (operationHandler args {| request := request input; operation := o2 |} w5)
    as [r w6] eqn:Hop.
  erewrite call_run by exact Hop.
  cbn [after calls snd]. autorewrite with projections. now rewrite Htb.
Qed.

(** C3.  When a stage fails, the handler fails with that stage's error and
    leaves the world as the failing call left it; the stages that have run
    are those up to the failing one, in the order credentials, modes,
    permissions, authorization; and neither the downstream handler, nor the
    file accessor, nor any store has been called. *)
Theorem failing_stage_short_circuits
    (input : OperationHttpHandlerInput) (w : W)
    (s : Stage) (e : HttpError) (w' : W) :
  StageFails args input w s e w' ->
  let run := handle env args input w in
  outcome run = Err e /\
  final run = w' /\
  stages (calls run) = stagesUpTo s /\
  operationHandlerCalls (calls run) = [] /\
  accessorCalls (calls run) = [] /\
  storeCalls (calls run) = [].
Proof.
  intros Hfails run. subst run.
  destruct Hfails as [e w1 Hc | c w1 e w2 Hc Hm | c w1 m w2 e w3 Hc Hm Hp
                     | c m ps ap w3 e w4 Hres Ha].
  - unfold handle. cbv zeta. run_call. repeat split.
  - unfold handle. cbv zeta. do 3 run_call. repeat split.
  - unfold handle. cbv zeta. do 5 run_call. repeat split.
  - erewrite handle_unauthorized by eassumption. repeat split.
Qed.

(** C4, as the code has it.  An operation that passes the authorize stage
    reaches the downstream handler, once, with the request it came with and
    with its method, target, conditions, body and negotiated preferences
    unchanged; the permission set and the [attributePermissions] object the
    permission reader returned are attached.  When the target is not the
    root container and the metadata of its parent can be read,
    [preferences.secure] is set to the flag computed from that metadata;
    in every other case (the target is the root container, its parent
    cannot be computed, the metadata cannot be read) it is as it came. *)
Theorem authorized_operation_is_forwarded
    (input : OperationHttpHandlerInput) (w : W)
    (c : CredentialSet) (m : ModeSet) (ps : PermissionSet)
    (ap : AttributePermissions) (w4 : W) :
  Authorized args input w c m ps ap w4 ->
  let run := handle env args input w in
  let o := operation input in
  exists o2,
    operationHandlerCalls (calls run) =
      [{| request := request input; operation := o2 |}] /\
    method o2 = method o /\
    target o2 = target o /\
    conditions o2 = conditions o /\
    body o2 = body o /\
    negotiation (preferences o2) = negotiation (preferences o) /\
    permissionSet o2 = Some ps /\
    attributePermissions o2 = Some ap /\
    (forall parent md w5,
       isRootContainer env (target o) = false ->
       getParentContainer env (target o) = Ok parent ->
       accessor_getMetadata env parent w4 = (Ok md, w5) ->
       secure (preferences o2) = Some (secureFlagFor md o)) /\
    (isRootContainer env (target o) = true ->
     secure (preferences o2) = secure (preferences o)) /\
    (forall err,
       isRootContainer env (target o) = false ->
       getParentContainer env (target o) = Err err ->
       secure (preferences o2) = secure (preferences o)) /\
    (forall parent err w5,
       isRootContainer env (target o) = false ->
       getParentContainer env (target o) = Ok parent ->
       accessor_getMetadata env parent w4 = (Err err, w5) ->
       secure (preferences o2) = secure (preferences o)).
Proof.
  intros Hauth run o.
  destruct (handle_authorized Hauth) as (o2 & Ho2 & Hrun).
  exists o2. subst run. rewrite Hrun. clear Hrun.
  pose proof (authorizing_secureBlock_runs (attach (operation input) ps ap) w4)
    as Hblock.
  destruct (secureBlock env (attach (operation input) ps ap) w4)
    as [[rb w5] tb].
  cbn [outcome fst] in Ho2. subst rb.
  cbn [calls final fst snd].
  destruct (operationHandler args {| request := request input; operation := o2 |} w5)
    as [r w6] eqn:Hop.
  erewrite call_run by exact Hop.
  cbn [after calls snd].
  assert (operationHandlerCalls tb = []) as Htb
    by (inversion Hblock; reflexivity).
  split.
  { autorewrite with projections. now rewrite Htb. }
  cbn [attach target] in Hblock. fold o in Hblock |- *.
  inversion Hblock as [Hroot | err Hroot Hparent
                      | parent err w5' Hroot Hparent Hmd
                      | parent md w5' Hroot Hparent Hmd]; subst;
    cbn [attach target] in *;
    (do 7 (split; [reflexivity|]));
    (split; [|split; [|split]]).
  all: try (intros; congruence).
  all: try (intros; reflexivity).
  intros parent' md' w5'' _ Hparent' Hmd'.
  rewrite Hparent in Hparent'. injection Hparent' as <-.
  rewrite Hmd in Hmd'. injection Hmd' as <- _. reflexivity.
Qed.

(** C9.  Once the operation has passed the authorize stage, the handler's
    last call is the downstream handler, called once, and the handler's
    outcome and final world are those of that call, whatever happens in the
    block in between.  If in that block the parent container cannot be
    computed, or its metadata cannot be read, the error is handed to
    [console.log] and the operation goes downstream as authorization left
    it. *)
Theorem secure_block_failure_is_swallowed
    (input : OperationHttpHandlerInput) (w : W)
    (c : CredentialSet) (m : ModeSet) (ps : PermissionSet)
    (ap : AttributePermissions) (w4 : W) :
  Authorized args input w c m ps ap w4 ->
  let run := handle env args input w in
  let o1 := attach (operation input) ps ap in
  exists o2 w5 t,
    calls run =
      t ++ [EvOperationHandler {| request := request input; operation := o2 |}] /\
    operationHandlerCalls t = [] /\
    (outcome run, final run) =
      operationHandler args {| request := request input; operation := o2 |} w5 /\
    (forall err,
       isRootContainer env (target o1) = false ->
       getParentContainer env (target o1) = Err err ->
       In (EvConsoleLog err) t /\ o2 = o1 /\ w5 = w4) /\
    (forall parent err w',
       isRootContainer env (target o1) = false ->
       getParentContainer env (target o1) = Ok parent ->
       accessor_getMetadata env parent w4 = (Err err, w') ->
       In (EvConsoleLog err) t /\ In (EvGetMetadata parent) t /\
       o2 = o1 /\ w5 = w').
Proof.
  intros Hauth run o1.
  destruct (handle_authorized Hauth) as (o2 & Ho2 & Hrun).
  subst run. rewrite Hrun. clear Hrun.
  pose proof (authorizing_secureBlock_runs (attach (operation input) ps ap) w4)
    as Hblock.
  fold o1 in Hblock, Ho2 |- *.
  destruct (secureBlock env o1 w4) as [[rb w5] tb].
  cbn [outcome fst] in Ho2. subst rb.
  cbn [calls final fst snd].
  destruct (operationHandler args {| request := request input; operation := o2 |} w5)
    as [r w6] eqn:Hop.
  erewrite call_run by exact Hop.
  cbn [after outcome final calls fst snd].
  eexists o2, w5, _. split; [reflexivity|].
  assert (operationHandlerCalls tb = []) as Htb
    by (inversion Hblock; reflexivity).
  split.
  { autorewrite with projections. now rewrite Htb. }
  split; [now rewrite Hop|].
  split.
  - intros err Hroot Hparent.
    inversion Hblock; subst; try congruence.
    assert (err0 = err) as -> by congruence.
    repeat split. apply in_or_app. right. cbn. auto 10.
  - intros parent err w' Hroot Hparent Hmd.
    inversion Hblock; subst; try congruence.
    assert (parent0 = parent) as -> by congruence.
    assert (err0 = err /\ w5 = w') as [-> ->] by (split; congruence).
    repeat split; apply in_or_app; right; cbn; auto 10.
Qed.
End AuthorizingFacts.

(** *** The pipeline on the in-memory deployment *)

Lemma permissive_authorizes (id : ResourceIdentifier) (w : Memory.World) :
  Authorized Memory.permissive (Memory.readRequest id) w Memory.anonymous
    [Read] [(Read, true)] {| readOnly := []; hide := [] |} w.
Proof. exists w. split; [exists w, w|]; repeat split. Qed.

(** Anonymous read denied: the authorizer refuses, nothing downstream runs. *)
Lemma failing_stage_short_circuits_witness :
  let input := Memory.readRequest Memory.doc in
  let e := {| kind := Unauthorized; message := "anonymous" |} in
  let run :=
    AuthorizingHttpHandler.handle Memory.platform Memory.denying input
      Memory.world0 in
  StageFails Memory.denying input Memory.world0 StageAuthorize e Memory.world0 /\
  outcome run = Err e /\
  final run = Memory.world0 /\
  stages (calls run) =
    [StageCredentials; StageModes; StagePermissions; StageAuthorize] /\
  operationHandlerCalls (calls run) = [] /\
  accessorCalls (calls run) = [] /\
  storeCalls (calls run) = [].
Proof.
  intros input e run.
  assert (StageFails Memory.denying input Memory.world0 StageAuthorize e
            Memory.world0) as Hfails.
  { apply (@FailsAuthorize _ Memory.denying input Memory.world0
             Memory.anonymous [Read] [] {| readOnly := []; hide := [] |}
             Memory.world0 e Memory.world0).
    - exists Memory.world0, Memory.world0. repeat split.
    - reflexivity. }
  split; [exact Hfails|].
  exact (@failing_stage_short_circuits _ Memory.platform Memory.denying input
           Memory.world0 StageAuthorize e Memory.world0 Hfails).
Defined.

(** C4 fails on the code: for a read of [doc] that every stage lets
    through, the operation handed downstream is not the incoming operation
    with the permission set attached; it also carries
    [attributePermissions] and [preferences.secure]. *)
Lemma forwarded_operation_carries_more :
  let input := Memory.readRequest Memory.doc in
  let run :=
    AuthorizingHttpHandler.handle Memory.platform Memory.permissive input
      Memory.world0 in
  exists o2,
    operationHandlerCalls (calls run) =
      [{| request := request input; operation := o2 |}] /\
    attributePermissions (operation input) = None /\
    attributePermissions o2 = Some {| readOnly := []; hide := [] |} /\
    secure (preferences (operation input)) = None /\
    secure (preferences o2) = Some {| enable := 0 |} /\
    o2 <> withPermissionSetOnly (operation input) [(Read, true)].
Proof.
  eexists. vm_compute. repeat split. discriminate.
Qed.

Lemma authorized_operation_is_forwarded_witness :
  let input := Memory.readRequest Memory.doc in
  let run :=
    AuthorizingHttpHandler.handle Memory.platform Memory.permissive input
      Memory.world0 in
  exists o2,
    operationHandlerCalls (calls run) =
      [{| request := request input; operation := o2 |}] /\
    method o2 = "GET" /\
    target o2 = Memory.doc /\
    conditions o2 = None /\
    body o2 = None /\
    negotiation (preferences o2) = [] /\
    permissionSet o2 = Some [(Read, true)] /\
    attributePermissions o2 = Some {| readOnly := []; hide := [] |} /\
    secure (preferences o2) = Some {| enable := 0 |}.
Proof.
  destruct (@authorized_operation_is_forwarded _ Memory.platform
              Memory.permissive (Memory.readRequest Memory.doc) Memory.world0
              _ _ _ _ _ (permissive_authorizes Memory.doc Memory.world0))
    as (o2 & H1 & H2 & H3 & H4 & H5 & H6 & H7 & H8 & Hflag & _).
  exists o2. repeat (split; [assumption|]).
  exact (Hflag {| path := Memory.root |} (metadata Memory.rootRepresentation)
           Memory.world0 eq_refl eq_refl eq_refl).
Defined.

Lemma secure_block_failure_is_swallowed_witness :
  let input := Memory.readRequest Memory.doc in
  let run :=
    AuthorizingHttpHandler.handle Memory.platform Memory.permissive input
      Memory.bareWorld in
  let o1 :=
    AuthorizingHttpHandler.attach (operation input) [(Read, true)]
      {| readOnly := []; hide := [] |} in
  exists o2 w5 t,
    calls run =
      t ++ [EvOperationHandler {| request := request input; operation := o2 |}] /\
    operationHandlerCalls t = [] /\
    (outcome run, final run) =
      AuthorizingHttpHandler.operationHandler Memory.permissive
        {| request := request input; operation := o2 |} w5 /\
    (forall err,
       isRootContainer Memory.platform (target o1) = false ->
       getParentContainer Memory.platform (target o1) = Err err ->
       In (EvConsoleLog err) t /\ o2 = o1 /\ w5 = Memory.bareWorld) /\
    (forall parent err w',
       isRootContainer Memory.platform (target o1) = false ->
       getParentContainer Memory.platform (target o1) = Ok parent ->
       accessor_getMetadata Memory.platform parent Memory.bareWorld = (Err err, w') ->
       In (EvConsoleLog err) t /\ In (EvGetMetadata parent) t /\
       o2 = o1 /\ w5 = w').
Proof.
  exact (@secure_block_failure_is_swallowed _ Memory.platform Memory.permissive
           (Memory.readRequest Memory.doc) Memory.bareWorld _ _ _ _ _
           (permissive_authorizes Memory.doc Memory.bareWorld)).
Defined.

(** On that deployment the failed metadata read is logged and the request
    is answered by the downstream handler all the same. *)
Example failed_metadata_read_is_logged :
  let run :=
    AuthorizingHttpHandler.handle Memory.platform Memory.permissive
      (Memory.readRequest Memory.doc) Memory.bareWorld in
  outcome run = Ok Memory.okResponse /\
  accessorCalls (calls run) = [EvGetMetadata {| path := Memory.root |}] /\
  In (EvConsoleLog (Memory.notFound Memory.root)) (calls run) /\
  stages (calls run) = stagesUpTo StageOperation.
Proof. vm_compute. repeat split. auto 20. Qed.

(** ** ContainerInitializer *)

Section InitializerFacts.
Import ContainerInitializer.
Context {W : Type}.
Variable util : PathUtil.
Variable env : Platform W.
Variable this : ContainerInitializer W.

Lemma attempts_resources (rs : list Resource) : forall w,
  map fst (fst (attempts (store this) rs w)) = rs.
Proof.
  induction rs as [|r rs IH]; intros w; [reflexivity|].
  cbn [attempts].
  destruct (setRepresentation (store this) (identifier r) (representation r)
              None None w) as [answer w1].
  specialize (IH w1). destruct (attempts (store this) rs w1) as [l w2].
  cbn in *. now rewrite IH.
Qed.

Lemma attemptCalls_storeCalls l :
  storeCalls (flat_map attemptCalls l) = map creationCall (map fst l).
Proof.
  induction l as [|[r answer] l IH]; [reflexivity|].
  cbn [flat_map map fst]. rewrite storeCalls_app, IH.
  now destruct answer.
Qed.

Lemma attemptCalls_storageSets l : storageSets (flat_map attemptCalls l) = [].
Proof.
  induction l as [|[r answer] l IH]; [reflexivity|].
  cbn [flat_map]. rewrite storageSets_app, IH.
  now destruct answer.
Qed.

(** The loop goes through every resource the sequence yields, counts the
    creations that succeeded, and fails only with the error of the
    sequence itself. *)
Lemma createResources_spec (resources : AsyncIterable) : forall count w,
  let x := createResources this resources count w in
  let a := attempts (store this) (yielded resources) w in
  calls x = flat_map attemptCalls (fst a) /\
  final x = snd a /\
  outcome x =
    match iterationError resources with
    | Some e => Err e
    | None =>
        Ok (count + length (List.filter (fun p => succeeded (snd p)) (fst a)))
    end.
Proof.
  induction resources as [|r rest IH|e]; intros count w.
  - cbn. repeat split. f_equal. lia.
  - cbn [createResources yielded iterationError attempts].
    destruct (setRepresentation (store this) (identifier r) (representation r)
                None None w) as [[ids|e] w1] eqn:Hset.
    + erewrite bind_ok
        by (apply try_ok; erewrite bind_ok by (apply call_run; exact Hset);
            reflexivity).
      specialize (IH (count + 1) w1).
      cbn.
      destruct (attempts (store this) (yielded rest) w1) as [l w2].
      destruct (createResources this rest (count + 1) w1) as [[rx wx] tx].
      cbn in IH |- *. destruct IH as (-> & -> & ->).
      repeat split. destruct (iterationError rest); [reflexivity|].
      f_equal. lia.
    + erewrite bind_ok
        by (erewrite try_err
              by (erewrite bind_err by (apply call_run; exact Hset);
                  reflexivity);
            reflexivity).
      specialize (IH count w1).
      cbn.
      destruct (attempts (store this) (yielded rest) w1) as [l w2].
      destruct (createResources this rest count w1) as [[rx wx] tx].
      cbn in IH |- *. destruct IH as (-> & -> & ->).
      repeat split.
  - cbn. repeat split.
Qed.

Lemma copyFiles_calls root files : forall w,
  Forall (fun ev => isFsCall ev = true) (calls (copyFiles util env this root files w)).
Proof.
  induction files as [|name rest IH]; intros w; [constructor|].
  cbn [copyFiles].
  destruct (fs_copyFile env (joinFilePath util (accountFolder this) [name])
              (joinFilePath util root [".internal/accounts"; name]) w)
    as [[[]|e] w1] eqn:Hcopy.
  - erewrite bind_ok by (apply call_run; exact Hcopy).
    cbn [after calls snd app]. constructor; [reflexivity | apply IH].
  - erewrite bind_err by (apply call_run; exact Hcopy).
    repeat constructor.
Qed.

Lemma copyAccountFolder_calls w :
  Forall (fun ev => isFsCall ev = true) (calls (copyAccountFolder util env this w)).
Proof.
  unfold copyAccountFolder.
  destruct (truthy (rootFilePath this)) as [root|]; [|constructor].
  destruct (fs_readdir env (accountFolder this) w) as [[files|e] w1] eqn:Hdir.
  - erewrite bind_ok by (apply call_run; exact Hdir).
    cbn [after calls snd app]. constructor; [reflexivity|].
    destruct files as [|name rest]; [constructor|].
    destruct (fs_mkdir env (joinFilePath util root [".internal/accounts"]) w1)
      as [[[]|e] w2] eqn:Hmk.
    + erewrite bind_ok by (apply call_run; exact Hmk).
      cbn [after calls snd app]. constructor; [reflexivity|].
      apply copyFiles_calls.
    + erewrite bind_err by (apply call_run; exact Hmk). repeat constructor.
  - erewrite bind_err by (apply call_run; exact Hdir). repeat constructor.
Qed.

Lemma fsCalls_storeCalls t :
  Forall (fun ev => isFsCall ev = true) t -> storeCalls t = [].
Proof.
  induction 1 as [|ev t Hev _ IH]; [reflexivity|].
  destruct ev; try discriminate Hev; exact IH.
Qed.

Lemma fsCalls_storageSets t :
  Forall (fun ev => isFsCall ev = true) t -> storageSets t = [].
Proof.
  induction 1 as [|ev t Hev _ IH]; [reflexivity|].
  destruct ev; try discriminate Hev; exact IH.
Qed.

Lemma failed_attempt_is_logged l r e :
  In (r, Err e) l ->
  In (EvLogger Warn (FailedToCreateResource (path (identifier r)) (message e)))
     (flat_map attemptCalls l).
Proof.
  intros Hin. apply in_flat_map. exists (r, Err e). split; [exact Hin|].
  cbn. auto.
Qed.

(** C10.  The initializer calls [setRepresentation] for every resource the
    generator yields, in order, whatever the earlier calls answered, and
    logs a warning for each call that failed.  If the generator's sequence
    ends without throwing and the copy of the account folder (listing it,
    creating the target directory, copying each file) does not fail,
    [storage.set(storageKey, true)] is called, once, as the last call, and
    its outcome is the initializer's, also when every creation failed.
    If the sequence throws, or the copy fails, the initializer fails with
    that error and [storage.set] is not called. *)
Theorem initialization_flag_outlives_failures (w : W) :
  let resources := generated util this in
  let run := handle util env this w in
  let loop := attempts (store this) (yielded resources) w in
  storeCalls (calls run) = map creationCall (yielded resources) /\
  (forall r e,
     In (r, Err e) (fst loop) ->
     In (EvLogger Warn
           (FailedToCreateResource (path (identifier r)) (message e)))
        (calls run)) /\
  match iterationError resources with
  | Some e => outcome run = Err e /\ storageSets (calls run) = []
  | None =>
      match copyAccountFolder util env this (snd loop) with
      | (Err e, _, _) => outcome run = Err e /\ storageSets (calls run) = []
      | (Ok _, w2, _) =>
          storageSets (calls run) = [(storageKey this, true)] /\
          (outcome run, final run) = storage this (storageKey this) true w2
      end
  end.
Proof.
  intros resources run loop.
  destruct (createResources_spec resources 0 w) as (Hc & Hf & Ho).
  fold loop in Hc, Hf, Ho.
  subst run. unfold handle. rewrite bind_emit. cbv zeta. fold resources.
  destruct (createResources this resources 0 w) as [[rl wl] tl] eqn:Hloop.
  cbn [calls final outcome fst snd] in Hc, Hf, Ho. subst tl wl rl.
  pose proof (attempts_resources (yielded resources) w) as Hres.
  fold loop in Hres.
  destruct (iterationError resources) as [e|].
  - erewrite bind_err by exact Hloop.
    cbn [after calls outcome final fst snd].
    autorewrite with projections.
    rewrite attemptCalls_storeCalls, attemptCalls_storageSets, Hres.
    split; [|split; [|split]]; try reflexivity.
    intros r e' Hin. apply in_or_app. right.
    now apply failed_attempt_is_logged.
  - erewrite bind_ok by exact Hloop. rewrite bind_emit.
    pose proof (copyAccountFolder_calls (snd loop)) as Hfs.
    destruct (copyAccountFolder util env this (snd loop))
      as [[[[]|e] w2] tc] eqn:Hcopy; cbn [calls snd] in Hfs.
    + erewrite bind_ok by exact Hcopy.
      destruct (storage this (storageKey this) true w2) as [r w3] eqn:Hset.
      erewrite call_run by exact Hset.
      cbn [after calls outcome final fst snd].
      autorewrite with projections.
      rewrite attemptCalls_storeCalls, attemptCalls_storageSets, Hres,
        (fsCalls_storeCalls Hfs), (fsCalls_storageSets Hfs).
      split; [|split; [|split]]; try reflexivity.
      * cbn. now rewrite app_nil_r.
      * intros r' e' Hin. apply in_or_app. right. apply in_or_app. left.
        now apply failed_attempt_is_logged.
    + erewrite bind_err by exact Hcopy.
      cbn [after calls outcome final fst snd].
      autorewrite with projections.
      rewrite attemptCalls_storeCalls, attemptCalls_storageSets, Hres,
        (fsCalls_storeCalls Hfs), (fsCalls_storageSets Hfs).
      split; [|split; [|split]]; try reflexivity.
      * cbn. now rewrite app_nil_r.
      * intros r' e' Hin. apply in_or_app. right. apply in_or_app. left.
        now apply failed_attempt_is_logged.
Qed.
End InitializerFacts.

(** *** The initializer on the in-memory deployment *)

(** Every creation is refused; both resources are attempted, both refusals
    are logged, and the flag is set. *)
Example flag_set_though_every_creation_failed :
  let run :=
    ContainerInitializer.handle Memory.pathUtil Memory.platform
      (Memory.initializer Memory.readOnlyStore) Memory.world0 in
  outcome run = Ok tt /\
  storeCalls (calls run) =
    [creationCall (Memory.seed "http://localhost:3001/a");
     creationCall (Memory.seed "http://localhost:3001/b")] /\
  length (List.filter isWarning (calls run)) = 2 /\
  storageSets (calls run) = [("rootInitialized", true)] /\
  Memory.flags (final run) !! "rootInitialized" = Some true /\
  Memory.docs (final run) = Memory.docs Memory.world0.
Proof. vm_compute. repeat split; reflexivity. Qed.

(** With a store that accepts them, the resources are there afterwards. *)
Example initializer_seeds_the_store :
  let run :=
    ContainerInitializer.handle Memory.pathUtil Memory.platform
      (Memory.initializer Memory.memStore) Memory.world0 in
  outcome run = Ok tt /\
  length (List.filter isWarning (calls run)) = 0 /\
  fst (hasResource Memory.memStore {| path := "http://localhost:3001/a" |}
         (final run)) = Ok true /\
  Memory.flags (final run) !! "rootInitialized" = Some true.
Proof. vm_compute. repeat split; reflexivity. Qed.

(* ===================================================================== *)
(** * Further properties *)
(* ===================================================================== *)

(** ** VarResolver: the check of the parsed arguments *)

Section CheckFacts.
Import VarResolver.

Lemma checkEntries_accepts es :
  checkEntries es = Ok true <->
  (forall key val, In (key, val) es -> isArray val = true -> key = "_").
Proof.
  induction es as [|[k v] es IH]; cbn [checkEntries].
  - split; [intros _ key val [] | reflexivity].
  - destruct (String.eqb_spec k "_") as [->|Hk]; cbn [negb andb].
    + rewrite IH. split.
      * intros H key val [[= <- <-]|Hin] Harr; [reflexivity | eauto].
      * intros H key val Hin. apply H. now right.
    + destruct (isArray v) eqn:Hv.
      * split; [discriminate|]. intros H. exfalso. apply Hk.
        apply (H k v); [now left | exact Hv].
      * rewrite IH. split.
        -- intros H key val [[= <- <-]|Hin] Harr; [congruence | eauto].
        -- intros H key val Hin. apply H. now right.
Qed.

Lemma checkEntries_first es : forall pre key vs post,
  es = pre ++ (key, Multiple vs) :: post ->
  key <> "_" ->
  (forall k v, In (k, v) pre -> isArray v = false \/ k = "_") ->
  checkEntries es = Err (newError (multipleMessage key vs)).
Proof.
  intros pre. revert es.
  induction pre as [|[k v] pre IH]; intros es key vs post -> Hkey Hpre;
    cbn [app checkEntries].
  - destruct (String.eqb_spec key "_") as [Heq|_]; [contradiction|].
    reflexivity.
  - destruct (Hpre k v (or_introl eq_refl)) as [Hv| ->].
    + rewrite Hv, andb_false_r.
      eapply IH; [reflexivity | exact Hkey |].
      intros k' v' Hin. apply Hpre. now right.
    + cbn [String.eqb Ascii.eqb Bool.eqb negb andb].
      eapply IH; [reflexivity | exact Hkey |].
      intros k' v' Hin. apply Hpre. now right.
Qed.

(** The check lets the arguments through exactly when there is no
    positional argument and no option holds an array; it never answers
    [false]. *)
Theorem check_accepts_exactly (args : Arguments) :
  (check args = Ok true <->
   positional args = [] /\
   forall key vs, In (key, Multiple vs) (options args) -> key = "_") /\
  check args <> Ok false.
Proof.
  unfold check. destruct (positional args) as [|p ps] eqn:Hpos.
  - split.
    + rewrite checkEntries_accepts. unfold entries. rewrite Hpos. split.
      * intros H. split; [reflexivity|].
        intros key vs Hin. apply (H key (Multiple vs)); [now right | reflexivity].
      * intros [_ H] key val [[= <- <-]|Hin] Harr; [reflexivity|].
        destruct val as [v|vs]; [discriminate Harr|]. now apply (H key vs).
    + induction (entries args) as [|[k v] es IH]; cbn [checkEntries];
        [discriminate|].
      now destruct (negb (String.eqb k "_") && isArray v).
  - split; [|discriminate].
    split; [discriminate | intros [[=] _]].
Qed.

(** The check reports one offence: the positional arguments when there are
    any, whatever the options hold; otherwise the first option, in the
    order of the entries, that holds an array, with all its values. *)
Theorem check_reports_first_offence
    (args : Arguments) (pre : list (string * ArgValue))
    (key : string) (vs : list string) (post : list (string * ArgValue)) :
  options args = pre ++ (key, Multiple vs) :: post ->
  key <> "_" ->
  (forall k v, In (k, v) pre -> isArray v = false \/ k = "_") ->
  check args =
  Err (newError
         match positional args with
         | [] => multipleMessage key vs
         | _ :: _ => positionalMessage (positional args)
         end).
Proof.
  intros Hopts Hkey Hpre. unfold check.
  destruct (positional args) as [|p ps] eqn:Hpos; [|reflexivity].
  apply checkEntries_first
    with (pre := ("_", Multiple []) :: pre) (post := post).
  - unfold entries. now rewrite Hopts, Hpos.
  - exact Hkey.
  - intros k v [[= <- <-]|Hin]; [now right | now apply Hpre].
Qed.
End CheckFacts.

Lemma check_reports_first_offence_witness :
  VarResolver.check Scenarios.repeatedArguments =
    Err (VarResolver.newError
           (VarResolver.multipleMessage "port" ["3000"; "3001"])) /\
  VarResolver.check Scenarios.positionalArguments =
    Err (VarResolver.newError
           (VarResolver.positionalMessage ["start"; "now"])).
Proof.
  split.
  - apply (@check_reports_first_offence Scenarios.repeatedArguments
             [("config", VarResolver.Single "default.json")] "port"
             ["3000"; "3001"]
             [("baseUrl", VarResolver.Multiple ["a"; "b"])]).
    + reflexivity.
    + discriminate.
    + intros k v [[= <- <-]|[]]. now left.
  - apply (@check_reports_first_offence Scenarios.positionalArguments
             [] "port" ["3000"; "3001"] []).
    + reflexivity.
    + discriminate.
    + intros k v [].
Defined.

(** The text of the two messages. *)
Example check_messages :
  VarResolver.positionalMessage ["start"; "now"] =
    String.concat VarResolver.quote
      ["Unsupported positional arguments: "; "start"; ", "; "now";
       EmptyString] /\
  VarResolver.multipleMessage "port" ["3000"; "3001"] =
    String.concat VarResolver.quote
      ["Multiple values were provided for: "; "port"; ": "; "3000"; ", ";
       "3001"; EmptyString].
Proof. split; reflexivity. Qed.

(** ** VarResolver: the computation of the variables *)

Section ResolveFacts.
Import VarResolver.
Context {W V : Type}.
Variable args : Arguments.

Lemma lookup_assign_other (vars : gmap string V) (name n : string) (v : V) :
  n <> name \/ name = "__proto__" -> assign vars name v !! n = vars !! n.
Proof.
  unfold assign. intros [Hne| ->]; [|reflexivity].
  destruct (String.eqb name "__proto__"); [reflexivity|].
  apply lookup_insert_ne. congruence.
Qed.

Lemma lookup_assign_same (vars : gmap string V) (name : string) (v : V) :
  name <> "__proto__" -> assign vars name v !! name = Some v.
Proof.
  unfold assign. intros Hne.
  destruct (String.eqb_spec name "__proto__") as [Heq|_]; [contradiction|].
  apply lookup_insert_eq.
Qed.

(** A run of the loop that succeeds has called every computer, in order;
    it leaves the variables of other names, and of the name ['__proto__'],
    as they were, and holds under each other computer's name a value that
    computer returned. *)
Lemma resolveEntries_ok (cs : list (string * @VarComputer W V)) :
  forall vars0 w vars w' t,
    List.NoDup (map fst cs) ->
    resolveEntries cs args vars0 w = (Ok vars, w', t) ->
    t = map fst cs /\
    (forall n, ~ In n (map fst cs) \/ n = "__proto__" ->
               vars !! n = vars0 !! n) /\
    (forall name computer,
       In (name, computer) cs ->
       name <> "__proto__" ->
       exists v w0 w1, computer args w0 = (Ok v, w1) /\ vars !! name = Some v).
Proof.
  induction cs as [|[name computer] cs IH]; intros vars0 w vars w' t Hnd Hrun.
  - cbn in Hrun. injection Hrun as <- <- <-.
    split; [reflexivity|]. split; [reflexivity|]. intros name computer [].
  - cbn [resolveEntries] in Hrun. cbn [map fst] in Hnd.
    apply List.NoDup_cons_iff in Hnd as [Hfresh Hnd].
    destruct (computer args w) as [[v|err] w1] eqn:Hc; [|discriminate Hrun].
    destruct (resolveEntries cs args (assign vars0 name v) w1)
      as [[r w2] t'] eqn:Hrest.
    injection Hrun as -> <- <-.
    destruct (IH _ _ _ _ _ Hnd Hrest) as (-> & Hother & Hmine).
    split; [reflexivity|]. split.
    + intros n Hn. cbn [map fst In] in Hn.
      rewrite Hother by tauto.
      apply lookup_assign_other.
      destruct Hn as [Hn| ->].
      * left. intros ->. apply Hn. now left.
      * destruct (String.eqb_spec name "__proto__") as [->|Hne];
          [now right | left; congruence].
    + intros name' computer' [[= <- <-]|Hin] Hne.
      * exists v, w, w1. split; [exact Hc|].
        rewrite Hother by (left; exact Hfresh). now apply lookup_assign_same.
      * now apply Hmine.
Qed.

(** The names called by a run that succeeds, whatever the names are. *)
Lemma resolveEntries_called (cs : list (string * @VarComputer W V)) :
  forall vars0 w vars w' t,
    resolveEntries cs args vars0 w = (Ok vars, w', t) -> t = map fst cs.
Proof.
  induction cs as [|[name computer] cs IH]; intros vars0 w vars w' t Hrun.
  - cbn in Hrun. now injection Hrun as <- <- <-.
  - cbn [resolveEntries] in Hrun.
    destruct (computer args w) as [[v|err] w1]; [|discriminate Hrun].
    destruct (resolveEntries cs args (assign vars0 name v) w1)
      as [[r w2] t'] eqn:Hrest.
    injection Hrun as -> <- <-. cbn. f_equal. eapply IH. exact Hrest.
Qed.

Lemma resolveEntries_stops (pre : list (string * @VarComputer W V)) :
  forall name computer post vars0 w vars1 w1 t1 err w2,
    resolveEntries pre args vars0 w = (Ok vars1, w1, t1) ->
    computer args w1 = (Err err, w2) ->
    resolveEntries (pre ++ (name, computer) :: post) args vars0 w =
    (Err (newError (computeMessage name err)), w2, map fst pre ++ [name]).
Proof.
  induction pre as [|[n c] pre IH];
    intros name computer post vars0 w vars1 w1 t1 err w2 Hpre Hfail.
  - cbn in Hpre. injection Hpre as <- <- <-.
    cbn [app resolveEntries]. now rewrite Hfail.
  - cbn [app resolveEntries] in Hpre |- *.
    destruct (c args w) as [[v|e] w'] eqn:Hc; [|discriminate Hpre].
    destruct (resolveEntries pre args (assign vars0 n v) w')
      as [[r w''] t'] eqn:Hrest.
    injection Hpre as -> <- <-.
    erewrite IH by eassumption. reflexivity.
Qed.


(** The first computer that fails ends [resolveVariables]: the computers
    after it are not called, the world is as the failing one left it, and
    the error is a new one whose message names the variable and carries the
    computer's message. *)
Theorem failing_computer_stops_resolution
    (pre : list (string * @VarComputer W V)) (name : string)
    (computer : @VarComputer W V) (post : list (string * @VarComputer W V))
    (w : W) (vars1 : gmap string V) (w1 : W) (t1 : list string)
    (err : HttpError) (w2 : W) :
  resolveVariables pre args w = (Ok vars1, w1, t1) ->
  computer args w1 = (Err err, w2) ->
  resolveVariables (pre ++ (name, computer) :: post) args w =
  (Err (newError (computeMessage name err)), w2, map fst pre ++ [name]).
Proof. apply resolveEntries_stops. Qed.
End ResolveFacts.


(** A computer named ['__proto__']: it is called, and the result has no
    own property of that name. *)
Example proto_computer_leaves_no_variable :
  exists vars,
    VarResolver.resolveVariables Scenarios.protoComputers
      Scenarios.portArguments Memory.world0 =
      (Ok vars, Memory.world0, ["__proto__"; "urn:port"]) /\
    vars !! "__proto__" = None /\
    vars !! "urn:port" = Some "3000".
Proof. eexists. split; [reflexivity|]. split; vm_compute; reflexivity. Qed.

Lemma failing_computer_stops_resolution_witness :
  VarResolver.resolveVariables Scenarios.brokenComputers
    Scenarios.portArguments Memory.world0 =
  (Err (VarResolver.newError
          "Error in computing value for variable urn:rootFilePath: missing option"),
   Memory.world0, ["urn:port"; "urn:rootFilePath"]).
Proof.
  exact (@failing_computer_stops_resolution _ _ Scenarios.portArguments
           [("urn:port", Scenarios.optionComputer "port")]
           "urn:rootFilePath" (Scenarios.optionComputer "rootFilePath")
           [("urn:baseUrl", Scenarios.optionComputer "baseUrl")]
           Memory.world0 _ Memory.world0 _
           {| kind := OtherError; message := "missing option" |} Memory.world0
           eq_refl eq_refl).
Defined.

(** ** PassthroughStore: chains of decorators *)

(** Any number of [PassthroughStore] decorators around a store make the
    store itself: every operation, with its result and its effect. *)
Theorem passthrough_chain (W : Type) (S : ResourceStore W) (n : nat) :
  Nat.iter n PassthroughStore.new S = S.
Proof.
  induction n as [|n IH]; [reflexivity|].
  rewrite Nat.iter_succ, IH. apply passthrough_same.
Qed.

(** ** RepresentationPatchHandler: the block between patcher and commit *)

Section PatchHandlerMore.
Import RepresentationPatchHandler.
Context {W : Type}.
Variable env : Platform W.
Variable patcher : RepresentationPatcherInput -> Op W Representation.

Lemma find_first {A} (f : A -> bool) (pre : list A) (x : A) (post : list A) :
  (forall y, In y pre -> f y = false) ->
  f x = true ->
  find f (pre ++ x :: post) = Some x.
Proof.
  intros Hpre Hx. induction pre as [|y pre IH]; cbn [app find].
  - now rewrite Hx.
  - rewrite (Hpre y (or_introl eq_refl)). apply IH.
    intros z Hz. apply Hpre. now right.
Qed.

(** In a composite update only the first item that has deletions is read
    for deletions, also when its array is empty: the deletions of later
    items and of the algebra itself are not looked at.  Likewise for
    insertions. *)
Theorem composite_update_first_item_wins
    (a : Algebra) (pre : list UpdateItem) (item : UpdateItem)
    (post : list UpdateItem) :
  a_updates a = Some (pre ++ item :: post) ->
  (forall qs,
     (forall u, In u pre -> u_delete u = None) ->
     u_delete item = Some qs ->
     deleteData a = qs) /\
  (forall qs,
     (forall u, In u pre -> u_insert u = None) ->
     u_insert item = Some qs ->
     insertData a = qs).
Proof.
  intros Hup. split; intros qs Hpre Hitem.
  - unfold deleteData. rewrite Hup.
    rewrite (find_first _ pre item post).
    + now rewrite Hitem.
    + intros u Hu. now rewrite (Hpre u Hu).
    + now rewrite Hitem.
  - unfold insertData. rewrite Hup.
    rewrite (find_first _ pre item post).
    + now rewrite Hitem.
    + intros u Hu. now rewrite (Hpre u Hu).
    + now rewrite Hitem.
Qed.

Lemma flaggedResources_none (d : list Quad) :
  (forall quad, In quad d -> value (predicate quad) <> secureOff) ->
  flaggedResources d = [].
Proof.
  intros H. unfold flaggedResources.
  induction d as [|q d IH]; [reflexivity|]. cbn [List.filter].
  destruct (String.eqb_spec (value (predicate q)) secureOff) as [Heq|_].
  - exfalso. apply (H q); [now left | exact Heq].
  - apply IH. intros quad Hin. apply H. now right.
Qed.

(** The calls of [handle]: those of the block between patcher and commit,
    if it is reached, among calls that do not go to the file accessor. *)
Lemma handle_calls_split (input : PatchHandlerInput W) (w : W) :
  exists pre block post,
    calls (handle env patcher input w) = pre ++ block ++ post /\
    Forall (fun ev => isAccessorCall ev = false) pre /\
    Forall (fun ev => isAccessorCall ev = false) post /\
    (block = [] \/
     exists w2, block = calls (secureBlock env (patch input) w2)).
Proof.
  assert (forall representation w1,
            PreReadYields input w representation w1 ->
            exists pre block post,
              calls (handle env patcher input w) = pre ++ block ++ post /\
              Forall (fun ev => isAccessorCall ev = false) pre /\
              Forall (fun ev => isAccessorCall ev = false) post /\
              (block = [] \/
               exists w2, block = calls (secureBlock env (patch input) w2)))
    as Hyields.
  { intros representation w1 Hpre.
    assert (exists t,
              preRead (source input) (identifier input) w =
                (Ok representation, w1, t) /\
              Forall (fun ev => isAccessorCall ev = false) t) as (t1 & Ht & Hclean).
    { destruct Hpre as [r w' H | e w' H Hnf]; eexists; split.
      - apply preRead_found; exact H.
      - repeat constructor.
      - eapply preRead_absent; eassumption.
      - repeat constructor. }
    destruct (patcher (patcherInput input representation) w1)
      as [[patched|e] w2] eqn:Hp.
    - erewrite handle_commits by eassumption.
      exists (t1 ++ [EvPatcher (patcherInput input representation)]),
        (calls (secureBlock env (patch input) w2)),
        ([EvLogger Debug (PatchingNewResource (path (identifier input)))] ++
         [EvStore (SetRepresentation (identifier input) patched None
                     (preferences input))]).
      split; [|split; [|split]].
      + destruct (setRepresentation (source input) (identifier input) patched
                    None (preferences input)
                    (final (secureBlock env (patch input) w2))) as [r w4] eqn:Hset.
        erewrite call_run by exact Hset.
        cbn [after calls snd]. now rewrite <- !app_assoc.
      + apply Forall_app. split; [exact Hclean | repeat constructor].
      + repeat constructor.
      + right. now exists w2.
    - erewrite handle_patcher_fails by eassumption.
      exists (t1 ++ [EvPatcher (patcherInput input representation)]), [], [].
      split; [now rewrite !app_nil_r|].
      split; [apply Forall_app; split; [exact Hclean | repeat constructor]|].
      split; [constructor | now left]. }
  destruct (getRepresentation (source input) (identifier input)
              emptyPreferences None w) as [[r|e0] w1] eqn:Hget.
  - apply (Hyields (Some r) w1). now apply PreReadFound with (r := r).
  - destruct (isNotFound e0) eqn:Hnf.
    + apply (Hyields None w1). now apply PreReadAbsent with (e := e0).
    + erewrite handle_preRead_fails by (eapply preRead_fails; eassumption).
      exists [EvStore (GetRepresentation (identifier input) emptyPreferences None)],
        [], [].
      split; [reflexivity|]. split; [repeat constructor|].
      split; [constructor | now left].
Qed.

Lemma clean_accessorCalls t :
  Forall (fun ev => isAccessorCall ev = false) t -> accessorCalls t = [].
Proof.
  induction 1 as [|ev t Hev _ IH]; [reflexivity|].
  cbn. now rewrite Hev.
Qed.

(** A patch whose deleted and inserted quads all have other predicates than
    [secureOff] makes the handler call the file accessor not once. *)
Theorem unflagged_patch_touches_no_file
    (input : PatchHandlerInput W) (w : W) :
  (forall a quad,
     algebra (patch input) = Some a ->
     In quad (deleteData a) \/ In quad (insertData a) ->
     value (predicate quad) <> secureOff) ->
  accessorCalls (calls (handle env patcher input w)) = [].
Proof.
  intros Hplain.
  destruct (handle_calls_split input w)
    as (pre & block & post & -> & Hpre & Hpost & Hblock).
  autorewrite with projections.
  rewrite (clean_accessorCalls Hpre), (clean_accessorCalls Hpost).
  destruct Hblock as [->|[w2 ->]]; [reflexivity|].
  unfold secureBlock. destruct (algebra (patch input)) as [a|] eqn:Ha;
    [|reflexivity].
  rewrite (flaggedResources_none (deleteData a))
    by (intros quad Hin; apply (Hplain a quad eq_refl); now left).
  rewrite (flaggedResources_none (insertData a))
    by (intros quad Hin; apply (Hplain a quad eq_refl); now right).
  reflexivity.
Qed.
End PatchHandlerMore.

Lemma composite_update_first_item_wins_witness :
  RepresentationPatchHandler.deleteData Scenarios.compositeAlgebra = [] /\
  RepresentationPatchHandler.insertData Scenarios.compositeAlgebra =
    [Scenarios.plainTriple].
Proof.
  split.
  - refine (proj1 (@composite_update_first_item_wins Scenarios.compositeAlgebra
              [ {| u_delete := None; u_insert := Some [Scenarios.plainTriple] |} ]
              {| u_delete := Some []; u_insert := None |}
              [ {| u_delete := Some [Scenarios.flaggedQuad];
                   u_insert := Some [Scenarios.flaggedQuad] |} ]
              eq_refl) [] _ eq_refl).
    intros u [<-|[]]. reflexivity.
  - refine (proj2 (@composite_update_first_item_wins Scenarios.compositeAlgebra
              []
              {| u_delete := None; u_insert := Some [Scenarios.plainTriple] |}
              [ {| u_delete := Some []; u_insert := None |};
                {| u_delete := Some [Scenarios.flaggedQuad];
                   u_insert := Some [Scenarios.flaggedQuad] |} ]
              eq_refl) [Scenarios.plainTriple] _ eq_refl).
    intros u [].
Defined.

Lemma unflagged_patch_touches_no_file_witness :
  accessorCalls
    (calls (RepresentationPatchHandler.handle Memory.platform
              Memory.constantPatcher
              (Memory.patchInput Memory.doc Scenarios.ordinaryPatch)
              Memory.world0)) = [].
Proof.
  apply unflagged_patch_touches_no_file.
  intros a quad [= <-] [[<-|[]]|[<-|[]]]; discriminate.
Defined.

Section PatchRewrites.
Import RepresentationPatchHandler.
Context {W : Type}.
Variable env : Platform W.
Variable patcher : RepresentationPatcherInput -> Op W Representation.

Lemma rewrites_paired plan : forall w,
  ReadThenWrite (fst (fst (rewrites env plan w))).
Proof.
  induction plan as [|[[p rp] wp] plan IH]; intros w; [constructor|].
  cbn [rewrites].
  destruct (accessor_getData env {| path := p |} rp w) as [[d|e] w1];
    [|constructor].
  destruct (accessor_writeDocument env {| path := p |} d
              (newMetadata {| path := p |}) wp w1) as [[[]|e] w2].
  - specialize (IH w2). destruct (rewrites env plan w2) as [[t w3] failure].
    now constructor.
  - repeat constructor.
Qed.

(** On every run the calls of the handler on the file accessor come in
    pairs: a [getData] of a resource, directly followed by a
    [writeDocument] of the same resource that carries a fresh, empty
    metadata for it, so that no stored metadata is written back; only the
    last [getData] may be left without its write. *)
Theorem writes_follow_reads_with_fresh_metadata
    (input : PatchHandlerInput W) (w : W) :
  ReadThenWrite (accessorCalls (calls (handle env patcher input w))).
Proof.
  destruct (handle_calls_split env patcher input w)
    as (pre & block & post & -> & Hpre & Hpost & Hblock).
  autorewrite with projections.
  rewrite (clean_accessorCalls Hpre), (clean_accessorCalls Hpost), app_nil_r.
  cbn [app].
  destruct Hblock as [->|[w2 ->]]; [constructor|].
  rewrite secureBlock_is_rewrites. cbn [calls snd].
  rewrite blockCalls_accessorCalls. apply rewrites_paired.
Qed.

(** If the read of the first resource flagged by the deletions fails, the
    block ends there: nothing is written, the resources flagged by the
    insertions are not touched, the error goes to [console.log], and the
    commit is made all the same. *)
Theorem failed_read_ends_the_block
    (input : PatchHandlerInput W) (w : W)
    (representation : option Representation) (w1 : W)
    (patched : Representation) (w2 : W)
    (a : Algebra) (p : string) (rest : list string)
    (e : HttpError) (w3 : W) :
  PreReadYields input w representation w1 ->
  patcher (patcherInput input representation) w1 = (Ok patched, w2) ->
  algebra (patch input) = Some a ->
  flaggedResources (deleteData a) = p :: rest ->
  accessor_getData env {| path := p |} (Some (securePreferences 0)) w2
    = (Err e, w3) ->
  let run := handle env patcher input w in
  accessorCalls (calls run) =
    [EvGetData {| path := p |} (Some (securePreferences 0))] /\
  In (EvConsoleLog e) (calls run) /\
  (outcome run, final run) =
    setRepresentation (source input) (identifier input) patched None
      (preferences input) w3.
Proof.
  intros Hpre Hp Ha Hflag Hget run.
  assert (secureBlock env (patch input) w2 =
          (Ok tt, w3,
           [EvGetData {| path := p |} (Some (securePreferences 0));
            EvConsoleLog e])) as Hblock.
  { unfold secureBlock. rewrite Ha, Hflag.
    erewrite try_err
      by (apply bind_err; cbn [rewriteSecure]; apply bind_err;
          apply call_run; exact Hget).
    reflexivity. }
  destruct (preRead_yields Hpre) as (t1 & Ht & _ & _ & Hacc & _).
  subst run. erewrite handle_commits by eassumption.
  rewrite Hblock. cbn [calls final fst snd].
  destruct (setRepresentation (source input) (identifier input) patched None
              (preferences input) w3) as [r w4] eqn:Hset.
  erewrite call_run by exact Hset.
  cbn [after outcome final calls fst snd].
  split; [|split].
  - autorewrite with projections. now rewrite Hacc.
  - rewrite !in_app_iff. left. right. right. left. cbn. auto.
  - reflexivity.
Qed.
End PatchRewrites.

(** Two flagged resources: two pairs. *)
Example two_rewrites_two_pairs :
  accessorCalls
    (calls (RepresentationPatchHandler.handle Memory.platform
              Memory.constantPatcher
              (Memory.patchInput Memory.doc Scenarios.twiceFlaggingPatch)
              Memory.world0)) =
  [EvGetData Memory.doc (Some (securePreferences 0));
   EvWriteDocument Memory.doc (data Memory.docRepresentation)
     (newMetadata Memory.doc) None;
   EvGetData Memory.doc None;
   EvWriteDocument Memory.doc (data Memory.docRepresentation)
     (newMetadata Memory.doc) (Some (securePreferences 0))].
Proof. vm_compute. reflexivity. Qed.

Lemma failed_read_ends_the_block_witness :
  let run :=
    RepresentationPatchHandler.handle Memory.platform Memory.constantPatcher
      (Memory.patchInput Memory.doc Scenarios.danglingPatch) Memory.world0 in
  accessorCalls (calls run) =
    [EvGetData Memory.missing (Some (securePreferences 0))] /\
  In (EvConsoleLog (Memory.notFound (path Memory.missing))) (calls run) /\
  (outcome run, final run) =
    setRepresentation Memory.memStore Memory.doc Memory.patchedRepresentation
      None None Memory.world0.
Proof.
  refine (@failed_read_ends_the_block _ Memory.platform Memory.constantPatcher
            (Memory.patchInput Memory.doc Scenarios.danglingPatch)
            Memory.world0 (Some Memory.docRepresentation) Memory.world0
            Memory.patchedRepresentation Memory.world0 _
            (path Memory.missing) [] _ Memory.world0 _ eq_refl eq_refl eq_refl _).
  - apply PreReadFound. vm_compute. reflexivity.
  - vm_compute. reflexivity.
Defined.

(** ** AuthorizingHttpHandler: the flag and the calls *)

(** The flag computed from the metadata of the parent is 0 exactly when
    that metadata has, under [secureOff], a value equal to the path of the
    target, and 1 otherwise; values under other predicates play no part. *)
Theorem secure_flag_value (md : RepresentationMetadata) (o : Operation) :
  (enable (AuthorizingHttpHandler.secureFlagFor md o) = 0%Z <->
   In ("http://zteq.com/ac/0.1/secureOff", {| value := path (target o) |})
      (md_entries md)) /\
  (enable (AuthorizingHttpHandler.secureFlagFor md o) = 0%Z \/
   enable (AuthorizingHttpHandler.secureFlagFor md o) = 1%Z).
Proof.
  unfold AuthorizingHttpHandler.secureFlagFor, getAll. cbn [enable].
  set (listed :=
         List.filter (fun item => String.eqb (value item) (path (target o)))
           (map snd
              (List.filter
                 (fun e => String.eqb (fst e) "http://zteq.com/ac/0.1/secureOff")
                 (md_entries md)))).
  assert (forall t, In t listed <->
                    In ("http://zteq.com/ac/0.1/secureOff", t) (md_entries md) /\
                    t = {| value := path (target o) |}) as Hlisted.
  { intros t. unfold listed. rewrite filter_In, in_map_iff. split.
    - intros [([k t'] & Heq & Hin) Hval]. cbn in Heq. subst t'.
      apply filter_In in Hin as [Hin Hk]. cbn in Hk.
      apply String.eqb_eq in Hk, Hval. subst k.
      split; [exact Hin|]. destruct t as [v]. cbn in Hval. now subst v.
    - intros [Hin ->]. split.
      + exists ("http://zteq.com/ac/0.1/secureOff",
                {| value := path (target o) |}).
        split; [reflexivity|]. apply filter_In. split; [exact Hin|].
        apply String.eqb_refl.
      + apply String.eqb_refl. }
  destruct listed as [|t rest].
  - split; [|now right]. split; [discriminate|].
    intros Hin. exfalso.
    apply (proj2 (Hlisted {| value := path (target o) |})). now split.
  - split; [|now left]. split; [|reflexivity].
    intros _. destruct (proj1 (Hlisted t) (or_introl eq_refl)) as [Hin ->].
    exact Hin.
Qed.

Section AuthorizingMore.
Import AuthorizingHttpHandler.
Context {W : Type}.
Variable env : Platform W.
Variable args : AuthorizingHttpHandlerArgs W.

Ltac step_call :=
  first [ erewrite bind_ok by (apply call_run; eassumption)
        | erewrite bind_err by (apply call_run; eassumption)
        | rewrite bind_emit ];
  cbv beta iota.

(** Every run either stops at a stage or passes the four of them. *)
Lemma handle_run_cases (input : OperationHttpHandlerInput) (w : W) :
  (exists s e w', StageFails args input w s e w') \/
  (exists c m ps ap w4, Authorized args input w c m ps ap w4).
Proof.
  destruct (credentialsExtractor args (request input) w)
    as [[c|e] w1] eqn:Hc.
  2: { left. exists StageCredentials, e, w1. now constructor. }
  destruct (modesExtractor args (operation input) w1) as [[m|e] w2] eqn:Hm.
  2: { left. exists StageModes, e, w2. econstructor; eassumption. }
  destruct (permissionReader args (readerInput (operation input) c m) w2)
    as [[[ps ap]|e] w3] eqn:Hp.
  2: { left. exists StagePermissions, e, w3. econstructor; eassumption. }
  assert (Resolved args input w c m ps ap w3) as Hres
    by (exists w1, w2; auto).
  destruct (authorizer args (authorizerInput (operation input) c m ps) w3)
    as [[[]|e] w4] eqn:Ha.
  - right. exists c, m, ps, ap, w4, w3. now split.
  - left. exists StageAuthorize, e, w4. econstructor; eassumption.
Qed.

(** The calls of a run that stops at a stage. *)
Lemma stopped_run_calls (input : OperationHttpHandlerInput) (w : W)
    (s : Stage) (e : HttpError) (w' : W) :
  StageFails args input w s e w' ->
  let t := calls (handle env args input w) in
  stages t = stagesUpTo s /\ storeCalls t = [] /\ patcherCalls t = [] /\
  accessorCalls t = [] /\ operationHandlerCalls t = [].
Proof.
  intros Hfails.
  destruct Hfails as [e w1 Hc | c w1 e w2 Hc Hm | c w1 m w2 e w3 Hc Hm Hp
                     | c m ps ap w3 e w4 Hres Ha].
  - unfold handle. cbv zeta. step_call. repeat split.
  - unfold handle. cbv zeta. do 3 step_call. repeat split.
  - unfold handle. cbv zeta. do 5 step_call. repeat split.
  - erewrite handle_unauthorized by eassumption. repeat split.
Qed.

(** The calls of a run that passes authorization, around those of the
    block that follows it. *)
Lemma authorized_run_calls (input : OperationHttpHandlerInput) (w : W)
    c m ps ap w4 :
  Authorized args input w c m ps ap w4 ->
  let block := secureBlock env (attach (operation input) ps ap) w4 in
  exists o2 pre post,
    outcome block = Ok o2 /\
    calls (handle env args input w) = pre ++ calls block ++ post /\
    (outcome (handle env args input w), final (handle env args input w)) =
      operationHandler args {| request := request input; operation := o2 |}
        (final block) /\
    storeCalls pre = [] /\ patcherCalls pre = [] /\ accessorCalls pre = [] /\
    operationHandlerCalls pre = [] /\
    storeCalls post = [] /\ patcherCalls post = [] /\ accessorCalls post = [] /\
    operationHandlerCalls post =
      [{| request := request input; operation := o2 |}].
Proof.
  intros Hauth block.
  destruct (handle_authorized env Hauth) as (o2 & Ho2 & ->).
  fold block in Ho2 |- *.
  destruct (operationHandler args {| request := request input; operation := o2 |}
              (final block)) as [r w6] eqn:Hop.
  erewrite call_run by exact Hop.
  exists o2,
    (resolvedCalls input c m ps ++
     [EvAuthorizer (authorizerInput (operation input) c m ps);
      EvLogger Verbose AuthorizationSucceeded]),
    [EvLoggerFile (agent c)
       (match body o2 with Some b => sparql b | None => None end);
     EvOperationHandler {| request := request input; operation := o2 |}].
  split; [exact Ho2|].
  split; [cbn [after calls snd]; now rewrite <- !app_assoc|].
  split; [now rewrite Hop|].
  repeat split.
Qed.

(** On every input the handler calls no store; of the file accessor it
    calls at most [getMetadata], once, on the parent container of the
    target, and only when the target is not the root container: it never
    reads data and never writes. *)
Theorem authorizing_handler_only_reads_metadata
    (input : OperationHttpHandlerInput) (w : W) :
  let run := handle env args input w in
  storeCalls (calls run) = [] /\
  patcherCalls (calls run) = [] /\
  (accessorCalls (calls run) = [] \/
   exists parent,
     isRootContainer env (target (operation input)) = false /\
     getParentContainer env (target (operation input)) = Ok parent /\
     accessorCalls (calls run) = [EvGetMetadata parent]).
Proof.
  intros run. subst run.
  destruct (handle_run_cases input w)
    as [(s & e & w' & Hfails) | (c & m & ps & ap & w4 & Hauth)].
  - destruct (stopped_run_calls Hfails) as (_ & Hs & Hp & Ha & _).
    rewrite Hs, Hp, Ha. auto.
  - destruct (authorized_run_calls Hauth)
      as (o2 & pre & post & _ & -> & _ & Hs1 & Hp1 & Ha1 & _ & Hs2 & Hp2 & Ha2 & _).
    pose proof (authorizing_secureBlock_runs env
                  (attach (operation input) ps ap) w4) as Hblock.
    autorewrite with projections.
    rewrite Hs1, Hp1, Ha1, Hs2, Hp2, Ha2.
    inversion Hblock as [Hroot | err Hroot Hparent | parent err w5 Hroot Hparent Hmd
                        | parent md w5 Hroot Hparent Hmd];
      cbn; repeat split; auto; right; exists parent; auto.
Qed.

(** On every input the stages that run are an initial part of: credentials,
    modes, permissions, authorization, downstream handler; none runs
    twice or out of order, and the downstream handler only after the four
    others. *)
Theorem stages_always_in_order
    (input : OperationHttpHandlerInput) (w : W) :
  exists s, stages (calls (handle env args input w)) = stagesUpTo s.
Proof.
  destruct (handle_run_cases input w)
    as [(s & e & w' & Hfails) | (c & m & ps & ap & w4 & Hauth)].
  - exists s. exact (proj1 (stopped_run_calls Hfails)).
  - exists StageOperation. eapply authorized_runs_every_stage. exact Hauth.
Qed.

(** For a target that is the root container the block after authorization
    does nothing: no call to the file accessor, [preferences.secure] left
    as it came, and the operation goes downstream with the permissions
    attached. *)
Theorem root_target_keeps_its_preferences
    (input : OperationHttpHandlerInput) (w : W)
    (c : CredentialSet) (m : ModeSet) (ps : PermissionSet)
    (ap : AttributePermissions) (w4 : W) :
  Authorized args input w c m ps ap w4 ->
  isRootContainer env (target (operation input)) = true ->
  let run := handle env args input w in
  let forwarded :=
    {| request := request input;
       operation := attach (operation input) ps ap |} in
  operationHandlerCalls (calls run) = [forwarded] /\
  accessorCalls (calls run) = [] /\
  (outcome run, final run) = operationHandler args forwarded w4.
Proof.
  intros Hauth Hroot run forwarded. subst run forwarded.
  destruct (authorized_run_calls Hauth)
    as (o2 & pre & post & Ho2 & -> & -> & _ & _ & Ha1 & Hh1 & _ & _ & Ha2 & Hh2).
  assert (secureBlock env (attach (operation input) ps ap) w4 =
          (Ok (attach (operation input) ps ap), w4, [])) as Hblock
    by (unfold secureBlock; cbn [attach target]; now rewrite Hroot).
  rewrite Hblock in Ho2 |- *. cbn [outcome fst] in Ho2.
  injection Ho2 as <-.
  autorewrite with projections. rewrite Ha1, Hh1, Ha2, Hh2.
  repeat split.
Qed.
End AuthorizingMore.

Lemma root_target_keeps_its_preferences_witness :
  let run :=
    AuthorizingHttpHandler.handle Memory.platform Memory.permissive
      Scenarios.rootRequest Memory.world0 in
  let forwarded :=
    {| request := request Scenarios.rootRequest;
       operation :=
         AuthorizingHttpHandler.attach (operation Scenarios.rootRequest)
           [(Read, true)] {| readOnly := []; hide := [] |} |} in
  operationHandlerCalls (calls run) = [forwarded] /\
  accessorCalls (calls run) = [] /\
  (outcome run, final run) =
    AuthorizingHttpHandler.operationHandler Memory.permissive forwarded
      Memory.world0.
Proof.
  exact (@root_target_keeps_its_preferences _ Memory.platform Memory.permissive
           Scenarios.rootRequest Memory.world0 _ _ _ _ _
           (permissive_authorizes {| path := Memory.root |} Memory.world0)
           eq_refl).
Defined.

(** ** ContainerInitializer: the count and the account folder *)

Section InitializerMore.
Import ContainerInitializer.
Context {W : Type}.
Variable util : PathUtil.
Variable env : Platform W.
Variable this : ContainerInitializer W.

Lemma truthy_some (s : option string) (root : string) :
  s = Some root -> root <> EmptyString -> truthy s = Some root.
Proof. intros -> Hroot. now destruct root. Qed.

Lemma truthy_none (s : option string) :
  s = None \/ s = Some EmptyString -> truthy s = None.
Proof. now intros [->| ->]. Qed.

Lemma attemptCalls_fsCalls l :
  List.filter isFsCall (flat_map attemptCalls l) = [].
Proof.
  induction l as [|[r answer] l IH]; [reflexivity|].
  cbn [flat_map]. rewrite List.filter_app, IH. now destruct answer.
Qed.

(** The run up to the end of the loop, when the sequence does not throw:
    what remains is the copy of the account folder and the flag. *)
Lemma initializer_run (w : W) :
  iterationError (generated util this) = None ->
  let loop := attempts (store this) (yielded (generated util this)) w in
  handle util env this w =
  after
    ([EvLogger Info (InitializingContainer (path (containerId this)))] ++
     flat_map attemptCalls (fst loop) ++
     [EvLogger Info
        (InitializedContainer (path (containerId this))
           (length (List.filter (fun p => succeeded (snd p)) (fst loop))))])
    (bind (copyAccountFolder util env this)
          (fun _ => call (EvStorageSet (storageKey this) true)
                         (storage this (storageKey this) true))
          (snd loop)).
Proof.
  intros Hends loop.
  destruct (createResources_spec this (generated util this) 0 w)
    as (Hc & Hf & Ho).
  fold loop in Hc, Hf, Ho. rewrite Hends in Ho.
  unfold handle. rewrite bind_emit. cbv zeta.
  destruct (createResources this (generated util this) 0 w)
    as [[rl wl] tl] eqn:Hloop.
  cbn [calls final outcome fst snd] in Hc, Hf, Ho. subst tl wl rl.
  erewrite bind_ok by exact Hloop. rewrite bind_emit.
  rewrite !after_after. cbn [Nat.add]. now rewrite <- !app_assoc.
Qed.

(** The run when the sequence throws. *)
Lemma initializer_run_throws (w : W) (e : HttpError) :
  iterationError (generated util this) = Some e ->
  let loop := attempts (store this) (yielded (generated util this)) w in
  handle util env this w =
  (Err e, snd loop,
   [EvLogger Info (InitializingContainer (path (containerId this)))] ++
   flat_map attemptCalls (fst loop)).
Proof.
  intros Hthrows loop.
  destruct (createResources_spec this (generated util this) 0 w)
    as (Hc & Hf & Ho).
  fold loop in Hc, Hf, Ho. rewrite Hthrows in Ho.
  unfold handle. rewrite bind_emit. cbv zeta.
  destruct (createResources this (generated util this) 0 w)
    as [[rl wl] tl] eqn:Hloop.
  cbn [calls final outcome fst snd] in Hc, Hf, Ho. subst tl wl rl.
  erewrite bind_err by exact Hloop. reflexivity.
Qed.

(** When the sequence of the generator ends without throwing, the count in
    the message logged after the loop is the number of resources whose
    creation succeeded, not the number of resources generated. *)
Theorem logged_count_is_the_successes (w : W) :
  iterationError (generated util this) = None ->
  let loop := attempts (store this) (yielded (generated util this)) w in
  In (EvLogger Info
        (InitializedContainer (path (containerId this))
           (length (List.filter (fun p => succeeded (snd p)) (fst loop)))))
     (calls (handle util env this w)).
Proof.
  intros Hends loop. rewrite (initializer_run w Hends). fold loop.
  cbn [after calls snd]. rewrite !in_app_iff.
  left. right. right. now left.
Qed.

(** Without a root file path, or with the empty string for one, the
    initializer makes no call to the file system. *)
Theorem no_root_path_no_file_system (w : W) :
  rootFilePath this = None \/ rootFilePath this = Some EmptyString ->
  List.filter isFsCall (calls (handle util env this w)) = [].
Proof.
  intros Hroot. apply truthy_none in Hroot.
  destruct (iterationError (generated util this)) as [e|] eqn:Hiter.
  - rewrite (initializer_run_throws w Hiter). cbn [calls snd].
    rewrite List.filter_app. cbn [List.filter isFsCall].
    apply attemptCalls_fsCalls.
  - rewrite (initializer_run w Hiter).
    unfold copyAccountFolder. rewrite Hroot. rewrite bind_ret.
    destruct (storage this (storageKey this) true
                (snd (attempts (store this) (yielded (generated util this)) w)))
      as [r w'] eqn:Hset.
    erewrite call_run by exact Hset.
    cbn [after calls snd]. rewrite !List.filter_app, attemptCalls_fsCalls.
    reflexivity.
Qed.

(** When the account folder is empty, the initializer lists it and does
    nothing else on the file system: no directory is created; the flag is
    then set. *)
Theorem empty_account_folder_creates_nothing
    (w : W) (root : string) (w2 : W) :
  iterationError (generated util this) = None ->
  rootFilePath this = Some root ->
  root <> EmptyString ->
  fs_readdir env (accountFolder this)
    (snd (attempts (store this) (yielded (generated util this)) w))
    = (Ok [], w2) ->
  let run := handle util env this w in
  List.filter isFsCall (calls run) = [EvReaddir (accountFolder this)] /\
  (outcome run, final run) = storage this (storageKey this) true w2.
Proof.
  intros Hiter Hroot Hne Hdir run. subst run.
  rewrite (initializer_run w Hiter).
  assert (copyAccountFolder util env this
            (snd (attempts (store this) (yielded (generated util this)) w))
          = (Ok tt, w2, [EvReaddir (accountFolder this)])) as Hcopy.
  { unfold copyAccountFolder. rewrite (truthy_some Hroot Hne).
    erewrite bind_ok by (apply call_run; exact Hdir). reflexivity. }
  erewrite bind_ok by exact Hcopy.
  destruct (storage this (storageKey this) true w2) as [r w'] eqn:Hset.
  erewrite call_run by exact Hset.
  cbn [after outcome final calls fst snd].
  rewrite !List.filter_app, attemptCalls_fsCalls. split; reflexivity.
Qed.

(** The loop over the files copies them in the order of the listing and
    stops at the first copy that fails. *)
Lemma copyFiles_in_order root files : forall w,
  let x := copyFiles util env this root files w in
  match outcome x with
  | Ok _ => calls x = map (copyCall util this root) files
  | Err _ =>
      exists copied name rest,
        files = copied ++ name :: rest /\
        calls x = map (copyCall util this root) (copied ++ [name])
  end.
Proof.
  induction files as [|name files IH]; intros w; [reflexivity|].
  cbn [copyFiles]. cbv zeta.
  destruct (fs_copyFile env (joinFilePath util (accountFolder this) [name])
              (joinFilePath util root [".internal/accounts"; name]) w)
    as [[[]|e] w1] eqn:Hcopy.
  - erewrite bind_ok by (apply call_run; exact Hcopy).
    specialize (IH w1). cbv zeta in IH.
    destruct (copyFiles util env this root files w1) as [[[[]|e] w2] t].
    + cbn in IH |- *. now rewrite IH.
    + cbn in IH |- *. destruct IH as (copied & n & rest & -> & ->).
      exists (name :: copied), n, rest. split; reflexivity.
  - erewrite bind_err by (apply call_run; exact Hcopy).
    exists [], name, files. split; reflexivity.
Qed.

Lemma copyFiles_attempts root files : forall w,
  Forall (fun answer => succeeded answer = true)
    (fst (copyAttempts util env this root files w)) ->
  copyFiles util env this root files w =
  (Ok tt, snd (copyAttempts util env this root files w),
   map (copyCall util this root) files).
Proof.
  induction files as [|name files IH]; intros w Hall; [reflexivity|].
  cbn [copyFiles copyAttempts] in Hall |- *.
  destruct (fs_copyFile env (joinFilePath util (accountFolder this) [name])
              (joinFilePath util root [".internal/accounts"; name]) w)
    as [answer w1] eqn:Hcopy.
  specialize (IH w1).
  destruct (copyAttempts util env this root files w1) as [answers w2].
  cbn [fst snd] in Hall, IH |- *.
  apply Forall_cons_iff in Hall as [Hanswer Hall].
  destruct answer as [[]|e]; [|discriminate Hanswer].
  erewrite bind_ok by (apply call_run; exact Hcopy).
  now rewrite (IH Hall).
Qed.

(** With a root file path and an account folder that is not empty, when
    the directory can be created and each copy of this run succeeds, the
    calls to the file system are: the listing, one [mkdir] of
    [.internal/accounts] under the root, and one copy per listed file, in
    the order of the listing, from the account folder to that directory
    under the same name; the flag is then set, from the world the last
    copy left. *)
Theorem account_folder_is_copied_in_order
    (w : W) (root : string) (files : list string) (w2 w3 : W) :
  iterationError (generated util this) = None ->
  rootFilePath this = Some root ->
  root <> EmptyString ->
  fs_readdir env (accountFolder this)
    (snd (attempts (store this) (yielded (generated util this)) w))
    = (Ok files, w2) ->
  files <> [] ->
  fs_mkdir env (joinFilePath util root [".internal/accounts"]) w2 = (Ok tt, w3) ->
  Forall (fun answer => succeeded answer = true)
    (fst (copyAttempts util env this root files w3)) ->
  let run := handle util env this w in
  List.filter isFsCall (calls run) =
    EvReaddir (accountFolder this) ::
    EvMkdir (joinFilePath util root [".internal/accounts"]) ::
    map (copyCall util this root) files /\
  storageSets (calls run) = [(storageKey this, true)] /\
  (outcome run, final run) =
    storage this (storageKey this) true
      (snd (copyAttempts util env this root files w3)).
Proof.
  intros Hiter Hroot Hne Hdir Hfiles Hmk Hcopies run. subst run.
  rewrite (initializer_run w Hiter).
  pose proof (copyFiles_attempts root files w3 Hcopies) as Hcopy.
  assert (copyAccountFolder util env this
            (snd (attempts (store this) (yielded (generated util this)) w))
          = (Ok tt, snd (copyAttempts util env this root files w3),
             [EvReaddir (accountFolder this);
              EvMkdir (joinFilePath util root [".internal/accounts"])] ++
             map (copyCall util this root) files)) as Hblock.
  { unfold copyAccountFolder. rewrite (truthy_some Hroot Hne).
    erewrite bind_ok by (apply call_run; exact Hdir).
    destruct files as [|name rest]; [contradiction|].
    erewrite bind_ok by (apply call_run; exact Hmk).
    rewrite Hcopy. reflexivity. }
  erewrite bind_ok by exact Hblock.
  destruct (storage this (storageKey this) true
              (snd (copyAttempts util env this root files w3)))
    as [r w'] eqn:Hset.
  erewrite call_run by exact Hset.
  cbn [after outcome final calls fst snd].
  autorewrite with projections.
  rewrite !List.filter_app, attemptCalls_fsCalls, attemptCalls_storageSets.
  split; [|split; [|reflexivity]].
  - cbn [List.filter isFsCall app]. rewrite app_nil_r.
    f_equal. f_equal. clear. induction files as [|f fs IH]; [reflexivity|].
    cbn. now rewrite IH.
  - cbn [storageSets flat_map app].
    assert (storageSets (map (copyCall util this root) files) = []) as ->
      by (clear; induction files as [|f fs IH]; [reflexivity | exact IH]).
    reflexivity.
Qed.

(** When the directory [.internal/accounts] cannot be created (it is
    created without [recursive], so also when it exists already), the
    initializer fails with that error: no file is copied and the flag is
    not set, although the resources have been created. *)
Theorem failed_mkdir_leaves_the_flag_unset
    (w : W) (root : string) (name : string) (rest : list string)
    (w2 : W) (e : HttpError) (w3 : W) :
  iterationError (generated util this) = None ->
  rootFilePath this = Some root ->
  root <> EmptyString ->
  fs_readdir env (accountFolder this)
    (snd (attempts (store this) (yielded (generated util this)) w))
    = (Ok (name :: rest), w2) ->
  fs_mkdir env (joinFilePath util root [".internal/accounts"]) w2 = (Err e, w3) ->
  let run := handle util env this w in
  outcome run = Err e /\
  final run = w3 /\
  List.filter isFsCall (calls run) =
    [EvReaddir (accountFolder this);
     EvMkdir (joinFilePath util root [".internal/accounts"])] /\
  storageSets (calls run) = [] /\
  storeCalls (calls run) = map creationCall (yielded (generated util this)).
Proof.
  intros Hiter Hroot Hne Hdir Hmk run. subst run.
  rewrite (initializer_run w Hiter).
  assert (copyAccountFolder util env this
            (snd (attempts (store this) (yielded (generated util this)) w))
          = (Err e, w3,
             [EvReaddir (accountFolder this);
              EvMkdir (joinFilePath util root [".internal/accounts"])]))
    as Hblock.
  { unfold copyAccountFolder. rewrite (truthy_some Hroot Hne).
    erewrite bind_ok by (apply call_run; exact Hdir). cbv beta iota.
    erewrite bind_err by (apply call_run; exact Hmk). reflexivity. }
  erewrite bind_err by exact Hblock.
  cbn [after outcome final calls fst snd].
  autorewrite with projections.
  rewrite !List.filter_app, attemptCalls_fsCalls, attemptCalls_storageSets,
    attemptCalls_storeCalls, attempts_resources.
  repeat split. cbn [storeCalls flat_map app]. now rewrite !app_nil_r.
Qed.
End InitializerMore.

(** *** The initializer on the in-memory deployment, with an account folder *)

(** Two resources generated, none created: the count logged is 0. *)
Lemma logged_count_is_the_successes_witness :
  In (EvLogger Info (InitializedContainer Memory.root 0))
     (calls (ContainerInitializer.handle Memory.pathUtil Memory.platform
               (Memory.initializer Memory.readOnlyStore) Memory.world0)).
Proof.
  exact (@logged_count_is_the_successes _ Memory.pathUtil Memory.platform
           (Memory.initializer Memory.readOnlyStore) Memory.world0 eq_refl).
Defined.

(** The empty string for a root file path: the account folder has files,
    and none is looked at. *)
Lemma no_root_path_no_file_system_witness :
  List.filter isFsCall
    (calls (ContainerInitializer.handle Memory.pathUtil
              (Scenarios.accountPlatform false)
              (Scenarios.initializerAt EmptyString) Memory.world0)) = [].
Proof.
  apply no_root_path_no_file_system. right. reflexivity.
Defined.

Lemma empty_account_folder_creates_nothing_witness :
  let this := Scenarios.initializerAt "data" in
  let run :=
    ContainerInitializer.handle Memory.pathUtil Memory.platform this
      Memory.world0 in
  List.filter isFsCall (calls run) = [EvReaddir "templates/accounts"] /\
  (outcome run, final run) =
    Memory.storageSet "rootInitialized" true
      (snd (attempts Memory.memStore
              (ContainerInitializer.yielded Memory.twoResources) Memory.world0)).
Proof.
  refine (@empty_account_folder_creates_nothing _ Memory.pathUtil
            Memory.platform (Scenarios.initializerAt "data") Memory.world0
            "data" _ eq_refl eq_refl _ eq_refl).
  discriminate.
Defined.

Lemma account_folder_is_copied_in_order_witness :
  let this := Scenarios.initializerAt "data" in
  let run :=
    ContainerInitializer.handle Memory.pathUtil
      (Scenarios.accountPlatform false) this Memory.world0 in
  List.filter isFsCall (calls run) =
    [EvReaddir "templates/accounts";
     EvMkdir "data/.internal/accounts";
     EvCopyFile "templates/accounts/alice.json"
       "data/.internal/accounts/alice.json";
     EvCopyFile "templates/accounts/bob.json"
       "data/.internal/accounts/bob.json"] /\
  storageSets (calls run) = [("rootInitialized", true)].
Proof.
  refine ((fun H => conj (proj1 H) (proj1 (proj2 H)))
            (@account_folder_is_copied_in_order _ Memory.pathUtil
               (Scenarios.accountPlatform false)
               (Scenarios.initializerAt "data")
               Memory.world0 "data" ["alice.json"; "bob.json"] _ _
               eq_refl eq_refl _ eq_refl _ eq_refl _)).
  - discriminate.
  - discriminate.
  - repeat constructor.
Defined.

(** The directory exists already: the resources are created, the flag is
    not set. *)
Lemma failed_mkdir_leaves_the_flag_unset_witness :
  let this := Scenarios.initializerAt "data" in
  let run :=
    ContainerInitializer.handle Memory.pathUtil
      (Scenarios.accountPlatform true) this Memory.world0 in
  outcome run = Err {| kind := OtherError; message := "EEXIST" |} /\
  final run =
    snd (attempts Memory.memStore
           (ContainerInitializer.yielded Memory.twoResources) Memory.world0) /\
  List.filter isFsCall (calls run) =
    [EvReaddir "templates/accounts"; EvMkdir "data/.internal/accounts"] /\
  storageSets (calls run) = [] /\
  storeCalls (calls run) =
    map creationCall (ContainerInitializer.yielded Memory.twoResources).
Proof.
  refine (@failed_mkdir_leaves_the_flag_unset _ Memory.pathUtil
            (Scenarios.accountPlatform true) (Scenarios.initializerAt "data")
            Memory.world0 "data" "alice.json" ["bob.json"] _ _ _
            eq_refl eq_refl _ eq_refl eq_refl).
  discriminate.
Defined.

Example flag_stays_unset_when_directory_exists :
  let run :=
    ContainerInitializer.handle Memory.pathUtil
      (Scenarios.accountPlatform true) (Scenarios.initializerAt "data")
      Memory.world0 in
  Memory.flags (final run) !! "rootInitialized" = None /\
  fst (hasResource Memory.memStore {| path := "http://localhost:3001/a" |}
         (final run)) = Ok true.
Proof. vm_compute. split; reflexivity. Qed.

(** ** AuthorizingHttpHandler: the flag on the way downstream *)

Section AuthorizingFlag.
Import AuthorizingHttpHandler.
Context {W : Type}.
Variable env : Platform W.
Variable args : AuthorizingHttpHandlerArgs W.

(** For a target that is not the root container and whose parent's
    metadata can be read, the handler reads that metadata once and sends
    the operation downstream with [preferences.secure] set to the computed
    flag, whatever [preferences.secure] the operation came with; the other
    preferences stay. *)
Theorem secure_flag_overrides_request
    (input : OperationHttpHandlerInput) (w : W)
    (c : CredentialSet) (m : ModeSet) (ps : PermissionSet)
    (ap : AttributePermissions) (w4 : W)
    (parent : ResourceIdentifier) (md : RepresentationMetadata) (w5 : W) :
  Authorized args input w c m ps ap w4 ->
  isRootContainer env (target (operation input)) = false ->
  getParentContainer env (target (operation input)) = Ok parent ->
  accessor_getMetadata env parent w4 = (Ok md, w5) ->
  let run := handle env args input w in
  let forwarded :=
    {| request := request input;
       operation :=
         setSecure (attach (operation input) ps ap)
           (secureFlagFor md (operation input)) |} in
  operationHandlerCalls (calls run) = [forwarded] /\
  accessorCalls (calls run) = [EvGetMetadata parent] /\
  (outcome run, final run) = operationHandler args forwarded w5 /\
  secure (preferences (operation forwarded)) =
    Some (secureFlagFor md (operation input)) /\
  negotiation (preferences (operation forwarded)) =
    negotiation (preferences (operation input)).
Proof.
  intros Hauth Hroot Hparent Hmd run forwarded. subst run forwarded.
  destruct (authorized_run_calls env Hauth)
    as (o2 & pre & post & Ho2 & -> & -> & _ & _ & Ha1 & Hh1 & _ & _ & Ha2 & Hh2).
  assert (secureBlock env (attach (operation input) ps ap) w4 =
          (Ok (setSecure (attach (operation input) ps ap)
                 (secureFlagFor md (operation input))),
           w5, [EvGetMetadata parent])) as Hblock.
  { unfold secureBlock. cbn [attach target]. rewrite Hroot. cbn [negb].
    apply try_ok. erewrite bind_ok by (unfold lift; now rewrite Hparent).
    cbv beta. erewrite bind_ok by (apply call_run; exact Hmd). reflexivity. }
  rewrite Hblock in Ho2 |- *. cbn [outcome fst] in Ho2.
  injection Ho2 as <-.
  autorewrite with projections. rewrite Ha1, Hh1, Ha2, Hh2.
  repeat split.
Qed.
End AuthorizingFlag.

(** The request asks for [enable = 1]; the root container lists [doc]
    under [secureOff]; downstream sees [enable = 0]. *)
Lemma secure_flag_overrides_request_witness :
  let run :=
    AuthorizingHttpHandler.handle Memory.platform Memory.permissive
      Scenarios.insistingRequest Memory.world0 in
  exists forwarded,
    operationHandlerCalls (calls run) = [forwarded] /\
    accessorCalls (calls run) = [EvGetMetadata {| path := Memory.root |}] /\
    secure (preferences (operation Scenarios.insistingRequest)) =
      Some {| enable := 1 |} /\
    secure (preferences (operation forwarded)) = Some {| enable := 0 |} /\
    negotiation (preferences (operation forwarded)) = [("type", "text/turtle")].
Proof.
  assert (Authorized Memory.permissive Scenarios.insistingRequest
            Memory.world0 Memory.anonymous [Read] [(Read, true)]
            {| readOnly := []; hide := [] |} Memory.world0) as Hauth
    by (exists Memory.world0; split; [exists Memory.world0, Memory.world0|];
        repeat split).
  destruct (@secure_flag_overrides_request _ Memory.platform Memory.permissive
              Scenarios.insistingRequest Memory.world0 _ _ _ _ _
              {| path := Memory.root |} (metadata Memory.rootRepresentation)
              Memory.world0 Hauth eq_refl eq_refl eq_refl)
    as (Hcalls & Hacc & _ & Hsecure & Hneg).
  eexists. split; [exact Hcalls|]. split; [exact Hacc|].
  split; [reflexivity|]. split; [exact Hsecure | exact Hneg].
Defined.
